(** * API manager: configuration registry, request executor, history ledger,
      keyword search and document fetch.

    A shallow embedding of the TypeScript server.  The tool handlers
    [save_api], [make_request], [get_api] and [delete_api] and the helpers
    they call are taken from [src/server.ts]; [search] and [fetch] only exist
    in the later revision of the same file, which shares the data types, the
    store and the ledger with it.

    Conventions of the embedding.
    - JavaScript strings are modelled by [string], read as sequences of
      ASCII code units; [toLowerCase] lowers the letters [A]-[Z] only.
    - An optional property ([description?: string]) is an [option]; a string
      is truthy exactly when it is present and not empty.
    - [Record<string, string>] objects are finite maps [gmap string string]
      of their own properties; an assignment [headers[key] = value] adds or
      replaces a property, except under the name [__proto__] (see [assign]).
    - The [Map] holding the configurations iterates in insertion order, so
      the store is an association list.
    - The [auth] object of a configuration is reached through a reference:
      object spread ([{ ...config }]) copies the reference, not the object.
      References are indices into a heap of [Auth] objects.
    - Numbers that the code handles (status codes, millisecond clocks) are
      integers [Z].
    - The network, the clock and the runtime's URL and JSON parsers are the
      environment: the handlers take their answers as arguments.  A handler
      runs from its first statement to its [return] without another handler
      in between. *)

From Stdlib Require Import ZArith Ascii.
From stdpp Require Import base option list gmap strings.

Local Open Scope Z_scope.

(** ** JavaScript string primitives used by the server *)

Module JsString.

Definition code (c : ascii) : N := N_of_ascii c.

Definition is_upper (c : ascii) : bool :=
  ((65 <=? code c) && (code c <=? 90))%N.

Definition is_lower (c : ascii) : bool :=
  ((97 <=? code c) && (code c <=? 122))%N.

Definition is_digit (c : ascii) : bool :=
  ((48 <=? code c) && (code c <=? 57))%N.

(** The character class [[a-zA-Z0-9]]. *)
Definition is_alnum (c : ascii) : bool :=
  is_lower c || is_upper c || is_digit c.

Definition lower_char (c : ascii) : ascii :=
  if is_upper c then ascii_of_N (code c + 32) else c.

Fixpoint map_chars (f : ascii → ascii) (s : string) : string :=
  match s with
  | EmptyString => EmptyString
  | String c r => String (f c) (map_chars f r)
  end.

(** [s.toLowerCase()] *)
Definition toLowerCase (s : string) : string := map_chars lower_char s.

(** [s.startsWith(p)] *)
Fixpoint startsWith (p s : string) : bool :=
  match p, s with
  | EmptyString, _ => true
  | String a p', String b s' =>
      if decide (a = b) then startsWith p' s' else false
  | String _ _, EmptyString => false
  end.

(** [s.includes(p)] *)
Fixpoint includes (p s : string) : bool :=
  startsWith p s ||
  match s with
  | EmptyString => false
  | String _ r => includes p r
  end.

(** The suffix of [s] after its first [n] code units. *)
Fixpoint drop_chars (n : nat) (s : string) : string :=
  match n, s with
  | O, _ => s
  | S n', String _ r => drop_chars n' r
  | S _, EmptyString => EmptyString
  end.

(** [s.replace(p, r)] for a string pattern: only the first occurrence is
    replaced ([r] holds no [$] pattern in the server). *)
Fixpoint replace_first (p r s : string) : string :=
  if startsWith p s then r +:+ drop_chars (String.length p) s
  else match s with
       | EmptyString => EmptyString
       | String c t => String c (replace_first p r t)
       end.

(** [s.replace(/[^a-zA-Z0-9]/g, '_')] *)
Definition replace_non_alnum (s : string) : string :=
  map_chars (λ c, if is_alnum c then c else "_"%char) s.

(** [s.replace(/_/g, '/')] *)
Definition replace_underscores (s : string) : string :=
  map_chars (λ c, if decide (c = "_"%char) then "/"%char else c) s.

(** [s.replace(/\/$/, '')]: one slash is removed, when it is the last code
    unit. *)
Fixpoint strip_trailing_slash (s : string) : string :=
  match s with
  | EmptyString => EmptyString
  | String c r =>
      match r with
      | EmptyString => if decide (c = "/"%char) then EmptyString else s
      | String _ _ => String c (strip_trailing_slash r)
      end
  end.

(** [s.endsWith('/')] *)
Fixpoint ends_with_slash (s : string) : bool :=
  match s with
  | EmptyString => false
  | String c EmptyString => bool_decide (c = "/"%char)
  | String _ r => ends_with_slash r
  end.

(** [s.split(sep)] for a separator of one code unit. *)
Fixpoint split (sep : ascii) (s : string) : list string :=
  match s with
  | EmptyString => [EmptyString]
  | String c r =>
      if decide (c = sep) then EmptyString :: split sep r
      else match split sep r with
           | [] => [String c EmptyString]
           | w :: ws => String c w :: ws
           end
  end.

(** [l.join(sep)] *)
Fixpoint join (sep : string) (l : list string) : string :=
  match l with
  | [] => EmptyString
  | w :: ws =>
      match ws with
      | [] => w
      | _ :: _ => w +:+ sep +:+ join sep ws
      end
  end.

(** Truthiness of an optional string property. *)
Definition truthy (o : option string) : bool :=
  match o with
  | Some s => negb (bool_decide (s = EmptyString))
  | None => false
  end.

(** [o || d] for an optional string. *)
Definition or_else (o : option string) (d : string) : string :=
  match o with
  | Some s => if bool_decide (s = EmptyString) then d else s
  | None => d
  end.

End JsString.

Import JsString.

(** [Buffer.from(s).toString('base64')] on ASCII text: three bytes become
    four characters of the standard alphabet, with [=] padding. *)
Module Base64.

Definition digit (n : N) : ascii :=
  (if n <? 26 then ascii_of_N (65 + n)
   else if n <? 52 then ascii_of_N (97 + (n - 26))
   else if n <? 62 then ascii_of_N (48 + (n - 52))
   else if n =? 62 then "+"%char else "/"%char)%N.

Definition sextet (k : N) (n : N) : ascii :=
  digit ((n / 64 ^ k) mod 64)%N.

Fixpoint encode (s : string) : string :=
  match s with
  | EmptyString => EmptyString
  | String a EmptyString =>
      let n := (code a * 65536)%N in
      String (sextet 3 n) (String (sextet 2 n) "==")
  | String a (String b EmptyString) =>
      let n := (code a * 65536 + code b * 256)%N in
      String (sextet 3 n) (String (sextet 2 n) (String (sextet 1 n) "="))
  | String a (String b (String c r)) =>
      let n := (code a * 65536 + code b * 256 + code c)%N in
      String (sextet 3 n) (String (sextet 2 n)
        (String (sextet 1 n) (String (sextet 0 n) (encode r))))
  end.

End Base64.

(** ** Data model *)

Module Credentials.

Record t := mk {
  token : option string;
  apiKey : option string;
  username : option string;
  password : option string;
  headerName : option string
}.

End Credentials.

Inductive AuthType := bearer | api_key | basic | none.

#[global] Instance AuthType_eq_dec : EqDecision AuthType.
Proof. solve_decision. Defined.

(** The string behind each member of the union type. *)
Definition AuthType_name (t : AuthType) : string :=
  match t with
  | bearer => "bearer"
  | api_key => "api-key"
  | basic => "basic"
  | none => "none"
  end.

Module Auth.

Record t := mk {
  type : AuthType;
  credentials : option Credentials.t
}.

End Auth.

(** A reference to an [Auth] object. *)
Definition ref := nat.

Module ApiConfig.

Record t := mk {
  name : string;
  baseUrl : string;
  description : option string;
  auth : option ref;
  headers : option (gmap string string);
  timeout : option Z;
  createdAt : string;
  lastUsed : option string
}.

Definition with_lastUsed (stamp : string) (c : t) : t :=
  mk (name c) (baseUrl c) (description c) (auth c) (headers c) (timeout c)
     (createdAt c) (Some stamp).

End ApiConfig.

Module RequestHistory.

Record t := mk {
  timestamp : string;
  apiName : string;
  method : string;
  endpoint : string;
  status : Z;
  responseTime : Z;
  success : bool
}.

End RequestHistory.

Inductive HttpMethod := GET | POST | PUT | DELETE | PATCH.

Definition HttpMethod_name (m : HttpMethod) : string :=
  match m with
  | GET => "GET"
  | POST => "POST"
  | PUT => "PUT"
  | DELETE => "DELETE"
  | PATCH => "PATCH"
  end.

(** The module-level state: [apiConfigs], [requestHistory], and the [Auth]
    objects the configurations refer to. *)
Record State := mkState {
  apiConfigs : list (string * ApiConfig.t);
  requestHistory : list RequestHistory.t;
  authObjects : list Auth.t
}.

Definition initial : State := mkState [] [] [].

(** ** [Map<string, V>] in insertion order *)

Module Map.

Fixpoint get {V : Type} (k : string) (m : list (string * V)) : option V :=
  match m with
  | [] => None
  | (k', v) :: r => if decide (k' = k) then Some v else get k r
  end.

Definition has {V : Type} (k : string) (m : list (string * V)) : bool :=
  match get k m with
  | Some _ => true
  | None => false
  end.

(** [set] keeps the position of a key that is already there and appends a
    new one. *)
Fixpoint set {V : Type} (k : string) (v : V) (m : list (string * V))
    : list (string * V) :=
  match m with
  | [] => [(k, v)]
  | (k', v') :: r =>
      if decide (k' = k) then (k', v) :: r else (k', v') :: set k v r
  end.

Fixpoint delete {V : Type} (k : string) (m : list (string * V))
    : list (string * V) :=
  match m with
  | [] => []
  | (k', v') :: r => if decide (k' = k) then r else (k', v') :: delete k r
  end.

End Map.

(** ** Helper functions of the server *)

Definition getApiConfig (st : State) (name : string) : option ApiConfig.t :=
  Map.get name (apiConfigs st).

(** The [Auth] object [config.auth] points to. *)
Definition auth_of (st : State) (config : ApiConfig.t) : option Auth.t :=
  match ApiConfig.auth config with
  | Some r => authObjects st !! r
  | None => None
  end.

(** [...o] inside an object literal; spreading [undefined] adds nothing. *)
Definition spread (o : option (gmap string string)) : gmap string string :=
  default ∅ o.

(** [headers[key] = value] on an object literal.  The name [__proto__] is
    an accessor of the prototype: unless the object has a property of its
    own under that name (a spread copies one as it is), assigning a string
    to it adds no property. *)
Definition assign (key value : string) (headers : gmap string string)
    : gmap string string :=
  if decide (key = "__proto__") then
    match headers !! key with
    | Some _ => <[ key := value ]> headers
    | None => headers
    end
  else <[ key := value ]> headers.

(** The block under [// Add authentication headers]. *)
Definition inject_auth (a : option Auth.t) (headers : gmap string string)
    : gmap string string :=
  match a with
  | Some (Auth.mk t (Some credentials)) =>
      match t with
      | none => headers
      | bearer =>
          match Credentials.token credentials with
          | Some token =>
              if truthy (Some token)
              then assign "Authorization" ("Bearer " +:+ token) headers
              else headers
          | None => headers
          end
      | api_key =>
          match Credentials.apiKey credentials,
                Credentials.headerName credentials with
          | Some apiKey, Some headerName =>
              if truthy (Some apiKey) && truthy (Some headerName)
              then assign headerName apiKey headers
              else headers
          | _, _ => headers
          end
      | basic =>
          match Credentials.username credentials,
                Credentials.password credentials with
          | Some username, Some password =>
              if truthy (Some username) && truthy (Some password)
              then assign "Authorization"
                     ("Basic " +:+
                      Base64.encode (username +:+ ":" +:+ password))
                     headers
              else headers
          | _, _ => headers
          end
      end
  | _ => headers
  end.

(** [buildHeaders(config, customHeaders)].  Object spread copies the
    properties of each operand in turn, a later one overwriting an earlier
    one; the assignment of the authentication header comes last. *)
Definition buildHeaders (st : State) (config : ApiConfig.t)
    (customHeaders : option (gmap string string)) : gmap string string :=
  let headers : gmap string string :=
    spread customHeaders ∪ (spread (ApiConfig.headers config)
      ∪ {[ "Content-Type" := "application/json" ]}) in
  inject_auth (auth_of st config) headers.

Definition redact (o : option string) : option string :=
  if truthy o then Some "[REDACTED]" else None.

(** [sanitizeConfig(config)].  [{ ...config }] is a new object whose [auth]
    property is the same reference as [config.auth]; the assignment to
    [sanitized.auth.credentials] therefore writes into the object that the
    stored configuration refers to.  The function returns the copy, and the
    state with that write. *)
Definition sanitizeConfig (st : State) (config : ApiConfig.t)
    : ApiConfig.t * State :=
  let sanitized := config in
  match ApiConfig.auth sanitized with
  | Some r =>
      match authObjects st !! r with
      | Some (Auth.mk t (Some creds)) =>
          let credentials' :=
            Credentials.mk
              (redact (Credentials.token creds))
              (redact (Credentials.apiKey creds))
              (Credentials.username creds)
              (redact (Credentials.password creds))
              (Credentials.headerName creds) in
          (sanitized,
           mkState (apiConfigs st) (requestHistory st)
                   (<[ r := Auth.mk t (Some credentials') ]> (authObjects st)))
      | _ => (sanitized, st)
      end
  | None => (sanitized, st)
  end.

(** What [JSON.stringify] prints for a configuration: its own properties
    and, behind the reference, the [Auth] object as it is at that moment. *)
Record Rendered := mkRendered {
  shown : ApiConfig.t;
  shown_auth : option Auth.t
}.

Definition stringify (st : State) (config : ApiConfig.t) : Rendered :=
  mkRendered config (auth_of st config).

(** [addRequestToHistory(request)]: [push], then [shift] when the array has
    more than 100 elements. *)
Definition addRequestToHistory (request : RequestHistory.t)
    (history : list RequestHistory.t) : list RequestHistory.t :=
  let pushed := history ++ [request] in
  if decide (100 < length pushed)%nat then tail pushed else pushed.

(** ** The tool handlers of [src/server.ts] *)

Module SaveArgs.

Record t := mk {
  name : string;
  baseUrl : string;
  description : option string;
  auth : option Auth.t;
  headers : option (gmap string string);
  timeout : option Z
}.

End SaveArgs.

(** The errors thrown inside [save_api], one constructor per [throw]. *)
Inductive SaveError :=
| AlreadyExists (name : string)
| InvalidBaseUrl
| BearerRequiresToken
| ApiKeyRequiresBoth
| BasicRequiresBoth.

(** The three credential errors form the [IncompleteAuth] class. *)
Definition IncompleteAuth (e : SaveError) : bool :=
  match e with
  | BearerRequiresToken | ApiKeyRequiresBoth | BasicRequiresBoth => true
  | AlreadyExists _ | InvalidBaseUrl => false
  end.

Inductive SaveResult :=
| SaveOk (configuration : Rendered)
| SaveFailed (e : SaveError).

(** The block under [// Validate auth requirements]: it is entered only when
    [auth] is given, its type is not ['none'] and it has a [credentials]
    object. *)
Definition check_auth (auth : option Auth.t) : option SaveError :=
  match auth with
  | Some (Auth.mk t (Some credentials)) =>
      match t with
      | none => None
      | bearer =>
          if negb (truthy (Credentials.token credentials))
          then Some BearerRequiresToken else None
      | api_key =>
          if negb (truthy (Credentials.apiKey credentials))
             || negb (truthy (Credentials.headerName credentials))
          then Some ApiKeyRequiresBoth else None
      | basic =>
          if negb (truthy (Credentials.username credentials))
             || negb (truthy (Credentials.password credentials))
          then Some BasicRequiresBoth else None
      end
  | _ => None
  end.

Module Response.

Record t := mk {
  status : Z;
  statusText : string;
  headers : gmap string string;
  text : string
}.

(** The [ok] attribute of a response: the status is in the range 200 to 299. *)
Definition ok (r : t) : bool := (200 <=? status r) && (status r <=? 299).

End Response.

(** How the promise returned by the runtime's [fetch] settles. *)
Inductive FetchOutcome :=
| Aborted
| Rejected (message : string)
| Resolved (response : Response.t).

Inductive Body :=
| JsonBody (text : string)
| TextBody (text : string).

Module RequestArgs.

Record t := mk {
  apiName : string;
  endpoint : string;
  method : HttpMethod;
  headers : option (gmap string string)
}.

End RequestArgs.

(** The clock readings of one [make_request] call: [Date.now()] on entry,
    [Date.now()] once the call has settled, and [new Date().toISOString()]
    at completion. *)
Record Clock := mkClock {
  startTime : Z;
  endTime : Z;
  nowIso : string
}.

Inductive RequestError :=
| ApiNotFound (apiName : string)
| FetchRejected (message : string)
| BodyRejected.

(** The three shapes [make_request] returns: the JSON summary of the
    response, ["Request timeout after ${responseTime}ms"], and
    ["Request failed: ${error.message}"]. *)
Inductive RequestResult :=
| RequestOk (status : Z) (statusText : string)
    (headers : gmap string string) (body : Body) (responseTime : Z)
| RequestTimeout (responseTime : Z)
| RequestFailed (e : RequestError).

Inductive GetResult :=
| GetOk (configuration : Rendered)
| GetFailed (name : string).

Inductive DeleteResult :=
| DeleteOk (name : string)
| DeleteFailed (name : string).

Section Handlers.

(** [new URL(url)] returns instead of throwing. *)
Variable URL_parses : string → bool.

(** [JSON.parse(text)] returns instead of throwing. *)
Variable JSON_valid : string → bool.

Definition validateUrl (url : string) : bool :=
  if URL_parses url
  then startsWith "http://" url || startsWith "https://" url
  else false.

(** [save_api]; [now] is [new Date().toISOString()].  The [auth] argument is
    an object of its own; [config.auth = auth] stores a reference to it. *)
Definition save_api (st : State) (args : SaveArgs.t) (now : string)
    : SaveResult * State :=
  let name := SaveArgs.name args in
  if Map.has name (apiConfigs st) then (SaveFailed (AlreadyExists name), st)
  else if negb (validateUrl (SaveArgs.baseUrl args))
  then (SaveFailed InvalidBaseUrl, st)
  else
    match check_auth (SaveArgs.auth args) with
    | Some e => (SaveFailed e, st)
    | None =>
        let '(authRef, objects) :=
          match SaveArgs.auth args with
          | Some a => (Some (length (authObjects st)), authObjects st ++ [a])
          | None => (None, authObjects st)
          end in
        let config :=
          ApiConfig.mk name
            (strip_trailing_slash (SaveArgs.baseUrl args))
            (if truthy (SaveArgs.description args)
             then SaveArgs.description args else None)
            authRef
            (SaveArgs.headers args)
            (Some (default 30000 (SaveArgs.timeout args)))
            now
            None in
        let st1 :=
          mkState (Map.set name config (apiConfigs st))
                  (requestHistory st) objects in
        let '(sanitized, st2) := sanitizeConfig st1 config in
        (SaveOk (stringify st2 sanitized), st2)
    end.

(** [get_api] *)
Definition get_api (st : State) (name : string) : GetResult * State :=
  match getApiConfig st name with
  | None => (GetFailed name, st)
  | Some config =>
      let '(sanitized, st') := sanitizeConfig st config in
      (GetOk (stringify st' sanitized), st')
  end.

(** [delete_api] *)
Definition delete_api (st : State) (name : string) : DeleteResult * State :=
  match getApiConfig st name with
  | None => (DeleteFailed name, st)
  | Some _ =>
      (DeleteOk name,
       mkState (Map.delete name (apiConfigs st))
               (requestHistory st) (authObjects st))
  end.

(** [parseResponse]; [None] when [response.json()] rejects. *)
Definition parseResponse (response : Response.t) : option Body :=
  let contentType :=
    or_else (Response.headers response !! "content-type") "" in
  let text := Response.text response in
  if includes "application/json" contentType
  then (if JSON_valid text then Some (JsonBody text) else None)
  else if includes "text/" contentType then Some (TextBody text)
  else if JSON_valid text then Some (JsonBody text)
  else Some (TextBody text).

(** [make_request].  The URL, the headers and the body only shape the
    outbound call, whose answer is [outcome]. *)
Definition make_request (st : State) (args : RequestArgs.t) (clock : Clock)
    (outcome : FetchOutcome) : RequestResult * State :=
  let apiName := RequestArgs.apiName args in
  match getApiConfig st apiName with
  | None => (RequestFailed (ApiNotFound apiName), st)
  | Some config =>
      match outcome with
      | Aborted => (RequestTimeout (endTime clock - startTime clock), st)
      | Rejected message => (RequestFailed (FetchRejected message), st)
      | Resolved response =>
          match parseResponse response with
          | None => (RequestFailed BodyRejected, st)
          | Some responseBody =>
              let responseTime := endTime clock - startTime clock in
              let lastUsed := nowIso clock in
              let request :=
                RequestHistory.mk lastUsed apiName
                  (HttpMethod_name (RequestArgs.method args))
                  (RequestArgs.endpoint args)
                  (Response.status response) responseTime
                  (Response.ok response) in
              (RequestOk (Response.status response)
                 (Response.statusText response) (Response.headers response)
                 responseBody responseTime,
               mkState
                 (Map.set apiName (ApiConfig.with_lastUsed lastUsed config)
                    (apiConfigs st))
                 (addRequestToHistory request (requestHistory st))
                 (authObjects st))
          end
      end
  end.

End Handlers.

(** ** [search] and [fetch] (later revision of the server) *)

Module SearchResult.

Record t := mk {
  id : string;
  title : string;
  url : string
}.

End SearchResult.

(** The test applied to a history entry, in both loops of [search]. *)
Definition request_matches (queryLower : string) (request : RequestHistory.t)
    : bool :=
  includes queryLower (toLowerCase (RequestHistory.endpoint request))
  || includes queryLower (toLowerCase (RequestHistory.method request)).

(** [relevanceScore += points; matchReasons.push(reason)] under a test. *)
Definition bump (test : bool) (points : Z) (reason : string)
    (acc : Z * list string) : Z * list string :=
  if test then (acc.1 + points, acc.2 ++ [reason]) else acc.

(** The score and the match reasons of one configuration. *)
Definition relevance (st : State) (queryLower name : string)
    (config : ApiConfig.t) : Z * list string :=
  let acc0 : Z * list string := (0, []) in
  let acc1 := bump (includes queryLower (toLowerCase name)) 10 "name" acc0 in
  let acc2 :=
    bump (match ApiConfig.description config with
          | Some d => includes queryLower (toLowerCase d)
          | None => false
          end) 8 "description" acc1 in
  let acc3 :=
    bump (includes queryLower (toLowerCase (ApiConfig.baseUrl config)))
         6 "baseUrl" acc2 in
  let acc4 :=
    bump (match auth_of st config with
          | Some a =>
              includes queryLower (toLowerCase (AuthType_name (Auth.type a)))
          | None => false
          end) 4 "auth" acc3 in
  let apiRequests :=
    filter (λ r, RequestHistory.apiName r = name) (requestHistory st) in
  bump (existsb (request_matches queryLower) apiRequests) 2 "endpoints" acc4.

(** The body of the loop over [apiConfigs.entries()]. *)
Definition config_result (st : State) (queryLower : string)
    (entry : string * ApiConfig.t) : list SearchResult.t :=
  let '(name, config) := entry in
  let '(relevanceScore, matchReasons) := relevance st queryLower name config in
  if decide (0 < relevanceScore)
  then [ SearchResult.mk
           ("api-" +:+ name)
           (name +:+ " API - " +:+
            or_else (ApiConfig.description config) "API Configuration" +:+
            " (" +:+ join ", " matchReasons +:+ ")")
           (ApiConfig.baseUrl config +:+ "/info") ]
  else [].

Definition endpoint_id (apiName endpoint : string) : string :=
  "endpoint-" +:+ apiName +:+ "-" +:+ replace_non_alnum endpoint.

(** The body of the loop over [requestHistory]; the accumulator is the set
    [uniqueEndpoints] and the results pushed so far. *)
Definition endpoint_step (st : State) (queryLower : string)
    (acc : gset string * list SearchResult.t) (request : RequestHistory.t)
    : gset string * list SearchResult.t :=
  let '(uniqueEndpoints, results) := acc in
  if request_matches queryLower request then
    let endpointKey :=
      RequestHistory.apiName request +:+ "-" +:+
      RequestHistory.endpoint request in
    if decide (endpointKey ∈ uniqueEndpoints) then acc
    else
      let apiConfig := getApiConfig st (RequestHistory.apiName request) in
      ({[ endpointKey ]} ∪ uniqueEndpoints,
       results ++
       [ SearchResult.mk
           (endpoint_id (RequestHistory.apiName request)
                        (RequestHistory.endpoint request))
           (RequestHistory.method request +:+ " " +:+
            RequestHistory.endpoint request +:+ " - " +:+
            RequestHistory.apiName request +:+ " API")
           (or_else (ApiConfig.baseUrl <$> apiConfig) "unknown" +:+
            RequestHistory.endpoint request) ])
  else acc.

(** [searchResults] before it is sorted. *)
Definition searchResults (st : State) (query : string)
    : list SearchResult.t :=
  let queryLower := toLowerCase query in
  let fromConfigs :=
    flat_map (config_result st queryLower) (apiConfigs st) in
  (foldl (endpoint_step st queryLower) (∅, fromConfigs)
         (requestHistory st)).2.

(** [sort((a, b) => b.title.length - a.title.length)]: longer titles first;
    the sort is stable, so equal lengths keep their order. *)
Fixpoint insert_by_title (x : SearchResult.t) (l : list SearchResult.t)
    : list SearchResult.t :=
  match l with
  | [] => [x]
  | y :: r =>
      if decide (String.length (SearchResult.title y)
                 ≤ String.length (SearchResult.title x))%nat
      then x :: l
      else y :: insert_by_title x r
  end.

Definition sort_by_title (l : list SearchResult.t) : list SearchResult.t :=
  foldr insert_by_title [] l.

(** [search]: the [results] array of the answer. *)
Definition search (st : State) (query : string) : list SearchResult.t :=
  take 10 (sort_by_title (searchResults st query)).

(** The data a document is written from.  The success rate and the average
    response time printed in it are roundings of the counts kept here. *)
Inductive Document :=
| ApiConfigurationDoc (id apiName : string) (config : ApiConfig.t)
    (authType : AuthType) (stats : list RequestHistory.t)
    (successfulRequests : nat)
| EndpointInfoDoc (id endpoint apiName : string) (config : ApiConfig.t)
    (authType : AuthType) (methods : list string)
    (requestCount successfulRequests : nat) (totalResponseTime : Z)
    (lastCalls : list RequestHistory.t).

(** The errors thrown inside [fetch]; each becomes the document titled
    ["Document Not Found"]. *)
Inductive FetchError :=
| InvalidEndpointId (id : string)
| UnknownApi (apiName : string)
| DocumentNotFound (id : string).

Inductive FetchResult :=
| FetchOk (document : Document)
| FetchFailed (e : FetchError).

Definition NotFound (r : FetchResult) : bool :=
  match r with
  | FetchOk _ => false
  | FetchFailed _ => true
  end.

(** [config.auth?.type || 'none'] *)
Definition authType_of (st : State) (config : ApiConfig.t) : AuthType :=
  match auth_of st config with
  | Some a => Auth.type a
  | None => none
  end.

(** [[...new Set(l)]]: the first occurrence of each element, in order. *)
Fixpoint unique_from (seen : list string) (l : list string) : list string :=
  match l with
  | [] => []
  | x :: r =>
      if decide (x ∈ seen) then unique_from seen r
      else x :: unique_from (x :: seen) r
  end.

(** [l.slice(-n)] *)
Definition slice_last {A : Type} (n : nat) (l : list A) : list A :=
  drop (length l - n) l.

Definition count_success (l : list RequestHistory.t) : nat :=
  length (filter (λ r, RequestHistory.success r = true) l).

Definition sum_responseTime (l : list RequestHistory.t) : Z :=
  foldl (λ sum r, sum + RequestHistory.responseTime r) 0 l.

(** The [if (id.startsWith('api-'))] block: the value of [document] after it. *)
Definition fetch_api (st : State) (id : string) : option Document :=
  if startsWith "api-" id then
    let apiName := replace_first "api-" "" id in
    match getApiConfig st apiName with
    | Some config =>
        let stats :=
          filter (λ r, RequestHistory.apiName r = apiName)
                 (requestHistory st) in
        Some (ApiConfigurationDoc id apiName config (authType_of st config)
                stats (count_success stats))
    | None => None
    end
  else None.

(** [fetch] *)
Definition fetch (st : State) (id : string) : FetchResult :=
  let document := fetch_api st id in
  let finish (document : option Document) : FetchResult :=
    match document with
    | Some d => FetchOk d
    | None => FetchFailed (DocumentNotFound id)
    end in
  if startsWith "endpoint-" id then
    let parts := split "-" (replace_first "endpoint-" "" id) in
    let apiName := hd "" parts in
    if decide (apiName = "") then FetchFailed (InvalidEndpointId id)
    else
      let endpointPart := replace_underscores (join "-" (tail parts)) in
      match getApiConfig st apiName with
      | None => FetchFailed (UnknownApi apiName)
      | Some config =>
          let endpointHistory :=
            filter (λ r, RequestHistory.apiName r = apiName
                         ∧ replace_non_alnum (RequestHistory.endpoint r)
                           = endpointPart)
                   (requestHistory st) in
          match endpointHistory with
          | firstRequest :: _ =>
              let endpoint := RequestHistory.endpoint firstRequest in
              finish (Some
                (EndpointInfoDoc id endpoint apiName config
                   (authType_of st config)
                   (unique_from [] (RequestHistory.method <$> endpointHistory))
                   (length endpointHistory) (count_success endpointHistory)
                   (sum_responseTime endpointHistory)
                   (slice_last 5 endpointHistory)))
          | [] => finish document
          end
      end
  else finish document.

(** ** A concrete environment for the examples *)

(** A URL parser that accepts [http://] or [https://], a host made of
    lower-case letters and dots that begins with a letter, and then nothing
    or a path of letters, digits and [/ _ - .].  Every string it accepts is
    an absolute URL for the runtime's [URL] constructor as well. *)
Module SampleUrl.

Definition path_char (c : ascii) : bool :=
  is_alnum c
  || bool_decide (c = "/"%char) || bool_decide (c = "_"%char)
  || bool_decide (c = "-"%char) || bool_decide (c = "."%char).

Fixpoint path (s : string) : bool :=
  match s with
  | EmptyString => true
  | String c r => path_char c && path r
  end.

Fixpoint host_tail (s : string) : bool :=
  match s with
  | EmptyString => true
  | String c r =>
      if is_lower c || bool_decide (c = "."%char) then host_tail r
      else bool_decide (c = "/"%char) && path r
  end.

Definition host (s : string) : bool :=
  match s with
  | EmptyString => false
  | String c r => is_lower c && host_tail r
  end.

Definition parses (url : string) : bool :=
  if startsWith "http://" url then host (drop_chars 7 url)
  else if startsWith "https://" url then host (drop_chars 8 url)
  else false.

End SampleUrl.

(** A JSON recogniser for the examples: the empty object only. *)
Definition sampleJson (text : string) : bool := bool_decide (text = "{}").

(** ** Vocabulary of the specification *)

(** The elapsed time a result of [make_request] reports, when it reports
    one. *)
Definition reported_time (result : RequestResult) : option Z :=
  match result with
  | RequestOk _ _ _ _ responseTime => Some responseTime
  | RequestTimeout responseTime => Some responseTime
  | RequestFailed _ => None
  end.

(** The specification's rule for credentials: bearer needs [token]; apiKey
    needs both [apiKey] and [headerName]; basic needs both [username] and
    [password]; none needs nothing.  A field counts as missing when it is
    absent or empty. *)
Definition missing_required (t : AuthType) (credentials : Credentials.t)
    : bool :=
  match t with
  | bearer => negb (truthy (Credentials.token credentials))
  | api_key =>
      negb (truthy (Credentials.apiKey credentials)
            && truthy (Credentials.headerName credentials))
  | basic =>
      negb (truthy (Credentials.username credentials)
            && truthy (Credentials.password credentials))
  | none => false
  end.

(** The secrets of a credentials object replaced by the redaction marker. *)
Definition redacted (creds : Credentials.t) : Credentials.t :=
  Credentials.mk
    (redact (Credentials.token creds))
    (redact (Credentials.apiKey creds))
    (Credentials.username creds)
    (redact (Credentials.password creds))
    (Credentials.headerName creds).

(** [c] occurs in [s]. *)
Fixpoint has_char (c : ascii) (s : string) : bool :=
  match s with
  | EmptyString => false
  | String d r => bool_decide (d = c) || has_char c r
  end.

(** [s] holds a character outside [[a-zA-Z0-9]]. *)
Fixpoint has_non_alnum (s : string) : bool :=
  match s with
  | EmptyString => false
  | String c r => negb (is_alnum c) || has_non_alnum r
  end.

(** ** Sample data *)

Definition github_args : SaveArgs.t :=
  SaveArgs.mk "github" "https://api.github.com" (Some "GitHub REST API v3")
    (Some (Auth.mk bearer
       (Some (Credentials.mk (Some "ghp_secret") None None None None))))
    (Some {[ "Accept" := "application/vnd.github+json" ]}) None.

Definition github_saved : State :=
  (save_api SampleUrl.parses initial github_args "2024-05-01T10:00:00.000Z").2.

Definition jp_args : SaveArgs.t :=
  SaveArgs.mk "jp" "https://jsonplaceholder.typicode.com" None
    (Some (Auth.mk none None)) None None.

Definition jp_saved : State :=
  (save_api SampleUrl.parses initial jp_args "2024-05-01T10:00:00.000Z").2.

Definition get_post : RequestArgs.t := RequestArgs.mk "jp" "/posts/1" GET None.

Definition ok_response : Response.t :=
  Response.mk 200 "OK"
    {[ "content-type" := "application/json; charset=utf-8" ]} "{}".

Definition missing_response : Response.t :=
  Response.mk 404 "Not Found" {[ "content-type" := "text/plain" ]} "no".

Definition jp_clock : Clock := mkClock 1000 1042 "2024-05-01T10:00:01.042Z".

Definition jp_called : State :=
  (make_request sampleJson jp_saved get_post jp_clock (Resolved ok_response)).2.

Definition jp_record : RequestHistory.t :=
  RequestHistory.mk "2024-05-01T10:00:01.042Z" "jp" "GET" "/posts/1" 200 42
    true.

(** A bearer configuration saved without a credentials object. *)
Definition bare_bearer_args : SaveArgs.t :=
  SaveArgs.mk "gh" "https://api.github.com" None
    (Some (Auth.mk bearer None)) None None.

(** A bearer configuration whose credentials object has no token. *)
Definition tokenless_args : SaveArgs.t :=
  SaveArgs.mk "gh" "https://api.github.com" None
    (Some (Auth.mk bearer (Some (Credentials.mk None None None None None))))
    None None.

(** The same, under the name that [github_saved] already holds. *)
Definition tokenless_github_args : SaveArgs.t :=
  SaveArgs.mk "github" "https://api.github.com" None
    (Some (Auth.mk bearer (Some (Credentials.mk None None None None None))))
    None None.

Definition basic_args : SaveArgs.t :=
  SaveArgs.mk "intranet" "http://intranet.example" None
    (Some (Auth.mk basic
       (Some (Credentials.mk None None (Some "user") (Some "pass") None))))
    None None.

Definition double_slash_args : SaveArgs.t :=
  SaveArgs.mk "ex" "https://example.com//" None None None None.

(** Three [Auth] objects with their credentials, and a configuration whose
    default headers already set the headers the credentials are sent in. *)
Definition keyed : State :=
  mkState [] []
    [ Auth.mk bearer (Some (Credentials.mk (Some "tok") None None None None));
      Auth.mk api_key
        (Some (Credentials.mk None (Some "k123") None None (Some "X-API-Key")));
      Auth.mk basic
        (Some (Credentials.mk None None (Some "user") (Some "pass") None)) ].

Definition config_at (r : ref) : ApiConfig.t :=
  ApiConfig.mk "svc" "https://svc.example" None (Some r)
    (Some {[ "Authorization" := "from-defaults"; "X-API-Key" := "from-defaults" ]})
    None "2024-05-01T10:00:00.000Z" None.

Definition forged : option (gmap string string) :=
  Some {[ "Authorization" := "from-call"; "X-API-Key" := "from-call" ]}.

Definition github_config : ApiConfig.t :=
  ApiConfig.mk "github" "https://api.github.com" (Some "GitHub REST API v3")
    (Some 0%nat) (Some {[ "Accept" := "application/vnd.github+json" ]})
    (Some 30000) "2024-05-01T10:00:00.000Z" None.

(** ** Further functions of the server *)

(** A value of a query parameter, as far as [buildUrl] looks at it: it is
    [undefined], [null], or something else, of which only [String(value)]
    is used. *)
Inductive JsValue :=
| js_undefined
| js_null
| js_value (text : string).

(** [URLSearchParams.prototype.toString()]: the form-urlencoded serializer.
    Letters, digits and [* - . _] stand for themselves, a space becomes [+],
    every other byte becomes [%] and two upper-case hexadecimal digits;
    names and values are joined by [=], pairs by [&]. *)
Module UrlEncoded.

Definition hex_digit (n : N) : ascii :=
  (if n <? 10 then ascii_of_N (48 + n) else ascii_of_N (55 + n))%N.

Definition unreserved (c : ascii) : bool :=
  is_alnum c
  || bool_decide (c = "*"%char) || bool_decide (c = "-"%char)
  || bool_decide (c = "."%char) || bool_decide (c = "_"%char).

Definition encode_char (c : ascii) : string :=
  if unreserved c then String c ""
  else if bool_decide (c = " "%char) then "+"
  else String "%" (String (hex_digit (code c / 16))
                     (String (hex_digit (code c mod 16)) "")).

Fixpoint encode (s : string) : string :=
  match s with
  | EmptyString => EmptyString
  | String c r => encode_char c +:+ encode r
  end.

Definition pair (kv : string * string) : string :=
  encode kv.1 +:+ "=" +:+ encode kv.2.

Definition serialize (l : list (string * string)) : string :=
  join "&" (pair <$> l).

End UrlEncoded.

(** The pairs [searchParams.append] receives: the entries whose value is
    neither [undefined] nor [null]. *)
Fixpoint appended (entries : list (string * JsValue)) : list (string * string) :=
  match entries with
  | [] => []
  | (key, js_value text) :: r => (key, text) :: appended r
  | (_, _) :: r => appended r
  end.

(** [endpoint.startsWith('/') ? endpoint : `/${endpoint}`] *)
Definition cleanEndpoint (endpoint : string) : string :=
  if startsWith "/" endpoint then endpoint else "/" +:+ endpoint.

(** [buildUrl(baseUrl, endpoint, queryParams)]; the entries of
    [queryParams] come in the order of [Object.entries]. *)
Definition buildUrl (baseUrl endpoint : string)
    (queryParams : option (list (string * JsValue))) : string :=
  let cleanBase := strip_trailing_slash baseUrl in
  let url := cleanBase +:+ cleanEndpoint endpoint in
  match queryParams with
  | Some entries =>
      if decide (0 < length entries)%nat
      then url +:+ "?" +:+ UrlEncoded.serialize (appended entries)
      else url
  | None => url
  end.

(** [addToLog(message)] on the array [activityLog]; [timestamp] is
    [new Date().toISOString()]. *)
Definition addToLog (timestamp message : string) (activityLog : list string)
    : list string :=
  let pushed := activityLog ++ ["[" +:+ timestamp +:+ "] " +:+ message] in
  if decide (100 < length pushed)%nat then tail pushed else pushed.

(** The line feed between the lines of the log resource. *)
Definition line_feed : string := String (ascii_of_N 10) "".

(** The [logs://recent] resource of the template server: it logs its own
    access, then answers with the last 20 lines. *)
Definition logs_recent (timestamp : string) (activityLog : list string)
    : string * list string :=
  let activityLog' :=
    addToLog timestamp "Resource accessed: logs://recent" activityLog in
  let recentLogs := join line_feed (slice_last 20 activityLog') in
  (or_else (Some recentLogs) "No recent activity", activityLog').

(** One element of the array [list_apis] answers with. *)
Module ApiSummary.

Record t := mk {
  name : string;
  baseUrl : string;
  description : option string;
  authType : AuthType;
  hasDefaultHeaders : bool;
  createdAt : string;
  lastUsed : option string
}.

End ApiSummary.

Section Listing.

(** [new Date(s).getTime()] for the timestamps the server wrote. *)
Variable Date_getTime : string → Z.

(** The comparator of [list_apis]. *)
Definition compare_configs (a b : ApiConfig.t) : Z :=
  let usedA := truthy (ApiConfig.lastUsed a) in
  let usedB := truthy (ApiConfig.lastUsed b) in
  if usedA && usedB
  then Date_getTime (default "" (ApiConfig.lastUsed b))
       - Date_getTime (default "" (ApiConfig.lastUsed a))
  else if usedA && negb usedB then -1
  else if negb usedA && usedB then 1
  else Date_getTime (ApiConfig.createdAt b)
       - Date_getTime (ApiConfig.createdAt a).

(** [Array.prototype.sort] with that comparator.  The comparator orders by
    a key, and the sort is stable, so the result is the one of any stable
    sort; here: insertion, from the right. *)
Fixpoint insert_config (x : ApiConfig.t) (l : list ApiConfig.t)
    : list ApiConfig.t :=
  match l with
  | [] => [x]
  | y :: r =>
      if decide (compare_configs x y ≤ 0) then x :: l
      else y :: insert_config x r
  end.

Definition sort_configs (l : list ApiConfig.t) : list ApiConfig.t :=
  foldr insert_config [] l.

Definition summary (st : State) (config : ApiConfig.t) : ApiSummary.t :=
  ApiSummary.mk
    (ApiConfig.name config)
    (ApiConfig.baseUrl config)
    (ApiConfig.description config)
    (authType_of st config)
    (match ApiConfig.headers config with
     | Some h => negb (bool_decide (h = ∅))
     | None => false
     end)
    (ApiConfig.createdAt config)
    (ApiConfig.lastUsed config).

(** [list_apis]: the array [apis]. *)
Definition list_apis (st : State) : list ApiSummary.t :=
  summary st <$> sort_configs ((apiConfigs st).*2).

End Listing.

(** The [apis://list] resource: every stored configuration goes through
    [sanitizeConfig], in the order of the store, and the copies are printed
    afterwards, with two counts and the time of the reading. *)
Module ApisList.

Record t := mk {
  totalApis : nat;
  totalRequests : nat;
  lastUpdated : string;
  apis : list Rendered
}.

End ApisList.

Definition sanitize_all (st : State) (configs : list ApiConfig.t) : State :=
  foldl (λ s config, (sanitizeConfig s config).2) st configs.

Definition apis_list (st : State) (now : string) : ApisList.t * State :=
  let configs := (apiConfigs st).*2 in
  let st' := sanitize_all st configs in
  (ApisList.mk (length configs) (length (requestHistory st)) now
     (stringify st' <$> configs),
   st').

(** ** States the handlers can reach *)

(** One call of a handler that writes to the state, with whatever the
    environment answers. *)
Inductive step (URL_parses JSON_valid : string → bool) : State → State → Prop :=
| step_save st args now :
    step URL_parses JSON_valid st (save_api URL_parses st args now).2
| step_get st name :
    step URL_parses JSON_valid st (get_api st name).2
| step_delete st name :
    step URL_parses JSON_valid st (delete_api st name).2
| step_request st args clock outcome :
    step URL_parses JSON_valid st
      (make_request JSON_valid st args clock outcome).2
| step_list st now :
    step URL_parses JSON_valid st (apis_list st now).2.

Inductive reachable (URL_parses JSON_valid : string → bool) : State → Prop :=
| reachable_initial : reachable URL_parses JSON_valid initial
| reachable_step st st' :
    reachable URL_parses JSON_valid st →
    step URL_parses JSON_valid st st' →
    reachable URL_parses JSON_valid st'.

(** The references held by the stored configurations. *)
Definition auth_refs (st : State) : list ref :=
  omap (λ entry, ApiConfig.auth entry.2) (apiConfigs st).

Definition well_formed (st : State) : Prop :=
  NoDup (apiConfigs st).*1
  ∧ NoDup (auth_refs st)
  ∧ (∀ name config,
       (name, config) ∈ apiConfigs st →
       ApiConfig.name config = name
       ∧ is_Some (ApiConfig.timeout config)
       ∧ ∀ r, ApiConfig.auth config = Some r →
              (r < length (authObjects st))%nat)
  ∧ (length (requestHistory st) ≤ 100)%nat
  ∧ (∀ r, r ∈ requestHistory st →
          (RequestHistory.success r = true
           ↔ 200 ≤ RequestHistory.status r ≤ 299)).

(** A credentials object shows no secret: each of [token], [apiKey] and
    [password] is absent or the redaction marker. *)
Definition shows_no_secret (credentials : Credentials.t) : Prop :=
  (Credentials.token credentials = None
   ∨ Credentials.token credentials = Some "[REDACTED]")
  ∧ (Credentials.apiKey credentials = None
     ∨ Credentials.apiKey credentials = Some "[REDACTED]")
  ∧ (Credentials.password credentials = None
     ∨ Credentials.password credentials = Some "[REDACTED]").

(** The credentials of the object at [r], if any, show no secret. *)
Definition redacted_at (st : State) (r : ref) : Prop :=
  ∀ t creds,
    authObjects st !! r = Some (Auth.mk t (Some creds)) →
    shows_no_secret creds.

(** All characters of [s] satisfy [p]. *)
Fixpoint all_chars (p : ascii → bool) (s : string) : bool :=
  match s with
  | EmptyString => true
  | String c r => p c && all_chars p r
  end.

(** The characters a serialized query is made of. *)
Definition query_char (c : ascii) : bool :=
  is_alnum c
  || bool_decide (c = "*"%char) || bool_decide (c = "-"%char)
  || bool_decide (c = "."%char) || bool_decide (c = "_"%char)
  || bool_decide (c = "+"%char) || bool_decide (c = "%"%char)
  || bool_decide (c = "="%char) || bool_decide (c = "&"%char).

(** Sample data for the further functions. *)

(** A stand-in for [getTime] on the server's timestamps: the digits of the
    timestamp read as one number, which grows with the time. *)
Fixpoint digits_value (acc : Z) (s : string) : Z :=
  match s with
  | EmptyString => acc
  | String c r =>
      if is_digit c
      then digits_value (10 * acc + Z.of_N (code c - 48)) r
      else digits_value acc r
  end.

Definition sample_getTime (s : string) : Z := digits_value 0 s.

Definition used_config : ApiConfig.t :=
  ApiConfig.mk "used" "https://used.example" None None None (Some 30000)
    "2024-05-01T10:00:00.000Z" (Some "2024-05-02T08:00:00.000Z").

Definition fresh_config : ApiConfig.t :=
  ApiConfig.mk "fresh" "https://fresh.example" None None None (Some 30000)
    "2024-05-03T10:00:00.000Z" None.

Definition older_config : ApiConfig.t :=
  ApiConfig.mk "older" "https://older.example" None None None (Some 30000)
    "2024-04-01T10:00:00.000Z" None.

Definition listing_state : State :=
  mkState
    [("older", older_config); ("fresh", fresh_config); ("used", used_config)]
    [] [].

Definition posts_record : RequestHistory.t :=
  RequestHistory.mk "2024-05-01T10:00:02.000Z" "jp" "GET" "posts" 200 17 true.

Definition posts_state : State :=
  mkState (apiConfigs jp_saved) [posts_record] (authObjects jp_saved).

(** The configuration [save_api] builds from its arguments. *)
Definition saved_config (st : State) (args : SaveArgs.t) (now : string)
    : ApiConfig.t :=
  ApiConfig.mk (SaveArgs.name args)
    (strip_trailing_slash (SaveArgs.baseUrl args))
    (if truthy (SaveArgs.description args)
     then SaveArgs.description args else None)
    ((λ _, length (authObjects st)) <$> SaveArgs.auth args)
    (SaveArgs.headers args)
    (Some (default 30000 (SaveArgs.timeout args)))
    now
    None.

(** Every element of [l] is in relation [R] to every later one. *)
Fixpoint sorted_by {A : Type} (R : A → A → Prop) (l : list A) : Prop :=
  match l with
  | [] => True
  | x :: r => Forall (R x) r ∧ sorted_by R r
  end.

(** The order [list_apis] puts two configurations in. *)
Definition listed_before (Date_getTime : string → Z) (a b : ApiConfig.t)
    : Prop :=
  compare_configs Date_getTime a b ≤ 0.

(** The order [search] puts two results in. *)
Definition title_not_shorter (a b : SearchResult.t) : Prop :=
  (String.length (SearchResult.title b)
   ≤ String.length (SearchResult.title a))%nat.

Definition both_saved : State :=
  (save_api SampleUrl.parses github_saved jp_args "2024-05-01T11:00:00.000Z").2.

Definition ftp_args : SaveArgs.t :=
  SaveArgs.mk "files" "ftp://files.example" None None None None.

(** A store whose one configuration refers to a bearer token. *)
Definition keyed_store : State :=
  mkState [("svc", config_at 0%nat)] [] (authObjects keyed).

(** An answer that declares JSON and has no body. *)
Definition empty_json_response : Response.t :=
  Response.mk 204 "No Content" {[ "content-type" := "application/json" ]} "".

Definition github_result : SearchResult.t :=
  SearchResult.mk "api-github"
    "github API - GitHub REST API v3 (name, description, baseUrl)"
    "https://api.github.com/info".

(** An API key to be sent in a header named [__proto__]: the arguments of
    [save_api], and a store that holds the configuration with its key.  The
    default headers and the per-call headers have other names. *)
Definition proto_args : SaveArgs.t :=
  SaveArgs.mk "px" "https://px.example.com" None
    (Some (Auth.mk api_key
       (Some (Credentials.mk None (Some "k123") None None
                (Some "__proto__")))))
    (Some {[ "Accept" := "text/plain"; "X-Trace" := "from-defaults" ]}) None.

Definition proto_config : ApiConfig.t :=
  ApiConfig.mk "px" "https://px.example.com" None (Some 0%nat)
    (Some {[ "Accept" := "text/plain"; "X-Trace" := "from-defaults" ]})
    (Some 30000) "2024-05-01T10:00:00.000Z" None.

Definition proto_store : State :=
  mkState [("px", proto_config)] []
    [ Auth.mk api_key
        (Some (Credentials.mk None (Some "k123") None None
                 (Some "__proto__"))) ].

(** The same configuration with the key to be sent as [X-API-Key]. *)
Definition named_store : State :=
  mkState [("px", proto_config)] []
    [ Auth.mk api_key
        (Some (Credentials.mk None (Some "k123") None None
                 (Some "X-API-Key"))) ].

Definition traced : option (gmap string string) :=
  Some {[ "X-Trace" := "from-call" ]}.

(** Per-call headers that have a property named [__proto__] of their own. *)
Definition proto_headers : option (gmap string string) :=
  Some {[ "__proto__" := "from-call" ]}.

(** A ledger of 100 records whose oldest is the only call of [/users]. *)
Definition users_record : RequestHistory.t :=
  RequestHistory.mk "2024-05-01T09:00:00.000Z" "jp" "GET" "/users" 200 20 true.

Definition full_state : State :=
  mkState (apiConfigs jp_saved) (users_record :: replicate 99 jp_record)
    (authObjects jp_saved).

(** * Properties *)

(** ** The primitives on sample strings *)

Section Primitives.

Example toLowerCase_sample : toLowerCase "GET /Posts" = "get /posts".
Proof. reflexivity. Qed.

Example includes_sample :
  includes "git" "github" = true ∧ includes "" "" = true
  ∧ includes "hub!" "github" = false.
Proof. repeat split; reflexivity. Qed.

Example replace_first_sample :
  replace_first "api-" "" "api-my-api-x" = "my-api-x".
Proof. reflexivity. Qed.

Example replace_non_alnum_sample :
  replace_non_alnum "/users/42?x=1" = "_users_42_x_1".
Proof. reflexivity. Qed.

Example strip_trailing_slash_sample :
  strip_trailing_slash "https://a.io/" = "https://a.io"
  ∧ strip_trailing_slash "https://a.io" = "https://a.io"
  ∧ strip_trailing_slash "https://a.io///" = "https://a.io//".
Proof. repeat split; reflexivity. Qed.

Example split_sample :
  split "-" "jp-_posts_1" = ["jp"; "_posts_1"]
  ∧ split "-" "" = [""] ∧ split "-" "a--b" = ["a"; ""; "b"].
Proof. repeat split; reflexivity. Qed.

Example join_sample : join ", " ["name"; "baseUrl"] = "name, baseUrl".
Proof. reflexivity. Qed.

Example Base64_sample :
  Base64.encode "user:pass" = "dXNlcjpwYXNz"
  ∧ Base64.encode "Aladdin:open sesame" = "QWxhZGRpbjpvcGVuIHNlc2FtZQ=="
  ∧ Base64.encode "a" = "YQ==".
Proof. repeat split; reflexivity. Qed.

Example SampleUrl_sample :
  SampleUrl.parses "https://api.github.com" = true
  ∧ SampleUrl.parses "http://localhost/v1/items" = true
  ∧ SampleUrl.parses "ftp://example.com" = false
  ∧ SampleUrl.parses "https:///" = false.
Proof. repeat split; reflexivity. Qed.

End Primitives.

(** ** Strings *)

Section StringFacts.

Lemma startsWith_app (p s : string) : startsWith p (p +:+ s) = true.
Proof.
  induction p as [|c p IH]; [done|].
  change (String c p +:+ s) with (String c (p +:+ s)).
  cbn. by rewrite decide_True.
Qed.

Lemma drop_chars_app (p s : string) :
  drop_chars (String.length p) (p +:+ s) = s.
Proof. induction p as [|c p IH]; [done|]. exact IH. Qed.

Lemma replace_first_unfold (p r s : string) :
  replace_first p r s =
    if startsWith p s then r +:+ drop_chars (String.length p) s
    else match s with
         | EmptyString => EmptyString
         | String c t => String c (replace_first p r t)
         end.
Proof. by destruct s. Qed.

(** Removing a prefix with [replace]: the first occurrence is the prefix. *)
Lemma replace_first_prefix (p s : string) : replace_first p "" (p +:+ s) = s.
Proof.
  rewrite replace_first_unfold, startsWith_app, drop_chars_app. done.
Qed.

Lemma includes_empty (s : string) : includes "" s = true.
Proof. by destruct s. Qed.

End StringFacts.

(** ** The store *)

Section MapFacts.

Context {V : Type}.
Implicit Types (m : list (string * V)) (k : string).

Lemma Map_get_set_eq k (v : V) m : Map.get k (Map.set k v m) = Some v.
Proof.
  induction m as [|[k' v'] m IH]; cbn.
  - by rewrite decide_True.
  - destruct (decide (k' = k)) as [->|Hne]; cbn.
    + by rewrite decide_True.
    + by rewrite decide_False.
Qed.

Lemma Map_get_set_ne k k' (v : V) m :
  k ≠ k' → Map.get k' (Map.set k v m) = Map.get k' m.
Proof.
  intros Hne. induction m as [|[k0 v0] m IH]; cbn.
  - by rewrite decide_False.
  - destruct (decide (k0 = k)) as [->|Hk]; cbn.
    + by rewrite !decide_False.
    + by rewrite IH.
Qed.

Lemma Map_get_elem_of k (v : V) m : Map.get k m = Some v → (k, v) ∈ m.
Proof.
  induction m as [|[k' v'] m IH]; cbn; [done|].
  destruct (decide (k' = k)) as [->|Hk].
  - intros [= ->]. left.
  - intros H. right. auto.
Qed.

Lemma Map_has_get k m : Map.has k m = false ↔ Map.get k m = None.
Proof. unfold Map.has. by destruct (Map.get k m). Qed.

(** Deleting a key of a store without repeated keys leaves no entry for it. *)
Lemma Map_get_delete_eq k m :
  NoDup m.*1 → Map.get k (Map.delete k m) = None.
Proof.
  induction m as [|[k' v'] m IH]; cbn; [done|].
  intros [Hnotin Hnd]%NoDup_cons.
  destruct (decide (k' = k)) as [->|Hk]; cbn.
  - destruct (Map.get k m) as [v|] eqn:Hg; [|done].
    apply Map_get_elem_of in Hg. destruct Hnotin.
    apply list_elem_of_fmap. by exists (k, v).
  - rewrite decide_False by done. auto.
Qed.

End MapFacts.

(** ** The ledger *)

Section Ledger.

Implicit Types (request : RequestHistory.t) (history : list RequestHistory.t).

Lemma addRequestToHistory_below request history :
  (length history < 100)%nat →
  addRequestToHistory request history = history ++ [request].
Proof.
  intros Hlen. unfold addRequestToHistory.
  rewrite decide_False; [done|]. rewrite length_app. cbn. lia.
Qed.

Lemma addRequestToHistory_full request history :
  (100 ≤ length history)%nat →
  addRequestToHistory request history = tail history ++ [request].
Proof.
  intros Hlen. unfold addRequestToHistory.
  rewrite decide_True by (rewrite length_app; cbn; lia).
  destruct history; [cbn in Hlen; lia|done].
Qed.

Lemma addRequestToHistory_length request history :
  (length history ≤ 100)%nat →
  (length (addRequestToHistory request history) ≤ 100)%nat.
Proof.
  intros Hlen. destruct (decide (length history < 100)%nat).
  - rewrite addRequestToHistory_below by done. rewrite length_app. cbn. lia.
  - rewrite addRequestToHistory_full by lia.
    rewrite length_app, length_tl. cbn. lia.
Qed.

(** Whatever is inserted into the empty ledger, it never grows past 100. *)
Lemma ledger_reachable_bounded (requests : list RequestHistory.t) :
  (length (foldl (λ h r, addRequestToHistory r h) [] requests) ≤ 100)%nat.
Proof.
  assert (∀ h, (length h ≤ 100)%nat →
    (length (foldl (λ h r, addRequestToHistory r h) h requests) ≤ 100)%nat)
    as Hgen.
  { induction requests as [|r rs IH]; intros h Hh; cbn; [done|].
    apply IH. by apply addRequestToHistory_length. }
  apply Hgen. cbn. lia.
Qed.

(** C5.  A ledger of at most 100 records holds at most 100 records after an
    insertion; below capacity the insertion appends the new record at the
    end, and at capacity it also removes the first (oldest) record, leaving
    the other records in their order followed by the new one. *)
Theorem ledger_bounded_fifo request history :
  (length history ≤ 100)%nat →
  (length (addRequestToHistory request history) ≤ 100)%nat
  ∧ ((length history < 100)%nat →
     addRequestToHistory request history = history ++ [request])
  ∧ (length history = 100%nat →
     addRequestToHistory request history = tail history ++ [request]
     ∧ length (addRequestToHistory request history) = 100%nat
     ∧ last (addRequestToHistory request history) = Some request).
Proof.
  intros Hlen. split; [by apply addRequestToHistory_length|]. split.
  - apply addRequestToHistory_below.
  - intros Hfull. rewrite addRequestToHistory_full by lia.
    split; [done|]. split.
    + rewrite length_app, length_tl. cbn. lia.
    + apply last_snoc.
Qed.

End Ledger.

(** ** Headers *)

Section Headers.

Implicit Types (st : State) (config : ApiConfig.t)
  (customHeaders : option (gmap string string))
  (headers : gmap string string).

(** The headers before the authentication header is assigned: a key is
    looked up in the per-call headers first, then in the configuration's
    default headers, then in the [Content-Type] default. *)
Lemma buildHeaders_layers st config customHeaders :
  ∃ layered : gmap string string,
    buildHeaders st config customHeaders
      = inject_auth (auth_of st config) layered
    ∧ ∀ k : string,
        layered !! k =
          match customHeaders ≫= (λ h, h !! k) with
          | Some v => Some v
          | None =>
              match ApiConfig.headers config ≫= (λ h, h !! k) with
              | Some v => Some v
              | None =>
                  if decide (k = "Content-Type")
                  then Some "application/json" else None
              end
          end.
Proof.
  eexists. split; [reflexivity|]. intros k. rewrite !lookup_union.
  assert (Hspread : ∀ o : option (gmap string string),
            spread o !! k = o ≫= (λ h, h !! k)).
  { intros [h|]; cbn; [done|apply lookup_empty]. }
  rewrite !Hspread.
  assert (Hdefault :
            ({[ "Content-Type" := "application/json" ]} : gmap string string)
              !! k
            = if decide (k = "Content-Type")
              then Some "application/json" else None).
  { case_decide as Hk.
    - subst k. apply lookup_singleton_eq.
    - by apply lookup_singleton_ne. }
  rewrite Hdefault.
  destruct (customHeaders ≫= _) as [v|].
  { apply union_Some_l. }
  rewrite (left_id None _).
  destruct (ApiConfig.headers config ≫= _) as [v|].
  { apply union_Some_l. }
  by rewrite (left_id None _).
Qed.

Lemma lookup_assign (key value : string) headers :
  key ≠ "__proto__" → assign key value headers !! key = Some value.
Proof.
  intros Hne. unfold assign. rewrite decide_False by done.
  apply lookup_insert_eq.
Qed.

Lemma lookup_assign_ne (key value k : string) headers :
  k ≠ key → assign key value headers !! k = headers !! k.
Proof.
  intros Hne. unfold assign.
  case_decide; [destruct (headers !! key)|]; try done;
    by rewrite lookup_insert_ne.
Qed.

(** Assigning to [__proto__] changes a property the object has, and adds
    none. *)
Lemma lookup_assign_proto (value : string) headers :
  assign "__proto__" value headers !! "__proto__"
    = (λ _, value) <$> headers !! "__proto__".
Proof.
  unfold assign. rewrite decide_True by done.
  destruct (headers !! "__proto__") eqn:Hl; cbn.
  - apply lookup_insert_eq.
  - done.
Qed.

Lemma truthy_Some (s : string) : s ≠ "" → truthy (Some s) = true.
Proof. intros Hs. cbn. by rewrite bool_decide_eq_false_2. Qed.

(** With complete credentials the authentication header is assigned last:
    [Authorization] for bearer and basic, and for an API key the header
    named by [headerName], unless that name is [__proto__]; the other
    headers are those of the layers. *)
Lemma buildHeaders_auth_last st config customHeaders :
  (∀ credentials token,
     auth_of st config = Some (Auth.mk bearer (Some credentials)) →
     Credentials.token credentials = Some token → token ≠ "" →
     buildHeaders st config customHeaders !! "Authorization"
       = Some ("Bearer " +:+ token))
  ∧ (∀ credentials apiKey headerName,
       auth_of st config = Some (Auth.mk api_key (Some credentials)) →
       Credentials.apiKey credentials = Some apiKey → apiKey ≠ "" →
       Credentials.headerName credentials = Some headerName →
       headerName ≠ "" → headerName ≠ "__proto__" →
       buildHeaders st config customHeaders !! headerName = Some apiKey)
  ∧ (∀ credentials username password,
       auth_of st config = Some (Auth.mk basic (Some credentials)) →
       Credentials.username credentials = Some username → username ≠ "" →
       Credentials.password credentials = Some password → password ≠ "" →
       buildHeaders st config customHeaders !! "Authorization"
         = Some ("Basic " +:+ Base64.encode (username +:+ ":" +:+ password))).
Proof.
  unfold buildHeaders. split; [|split].
  - intros credentials token -> Ht Hne. cbn [inject_auth]. rewrite Ht.
    rewrite truthy_Some by done. by apply lookup_assign.
  - intros credentials apiKey headerName -> Hk Hkne Hh Hhne Hproto.
    cbn [inject_auth]. rewrite Hk, Hh.
    rewrite !truthy_Some by done. cbn [andb]. by apply lookup_assign.
  - intros credentials username password -> Hu Hune Hp Hpne.
    cbn [inject_auth]. rewrite Hu, Hp.
    rewrite !truthy_Some by done. cbn [andb]. by apply lookup_assign.
Qed.

(** With an API key to be sent in a header named [__proto__], the result
    has that header only when the defaults or the per-call headers have
    one. *)
Lemma buildHeaders_proto st config customHeaders credentials apiKey :
  auth_of st config = Some (Auth.mk api_key (Some credentials)) →
  Credentials.apiKey credentials = Some apiKey → apiKey ≠ "" →
  Credentials.headerName credentials = Some "__proto__" →
  buildHeaders st config customHeaders !! "__proto__"
    = match customHeaders ≫= (λ h, h !! "__proto__") with
      | Some _ => Some apiKey
      | None =>
          match ApiConfig.headers config ≫= (λ h, h !! "__proto__") with
          | Some _ => Some apiKey
          | None => None
          end
      end.
Proof.
  intros Ha Hk Hkne Hh.
  destruct (buildHeaders_layers st config customHeaders)
    as (layered & -> & Hlayers).
  rewrite Ha. cbn [inject_auth]. rewrite Hk, Hh.
  rewrite truthy_Some by done. cbn [andb truthy negb].
  rewrite bool_decide_eq_false_2 by done. cbn [negb].
  rewrite lookup_assign_proto, Hlayers.
  destruct (customHeaders ≫= _); [done|].
  by destruct (ApiConfig.headers config ≫= _).
Qed.

End Headers.

(** ** The request executor *)

Section Executor.

Variable JSON_valid : string → bool.

Implicit Types (st : State) (args : RequestArgs.t) (clock : Clock).

Lemma Response_ok_spec (response : Response.t) :
  Response.ok response = true ↔ 200 ≤ Response.status response ≤ 299.
Proof. unfold Response.ok. rewrite andb_true_iff, !Z.leb_le. done. Qed.

(** What a call writes once [parseResponse] has returned the body. *)
Lemma make_request_records st args clock response config body :
  getApiConfig st (RequestArgs.apiName args) = Some config →
  parseResponse JSON_valid response = Some body →
  ∃ request,
    make_request JSON_valid st args clock (Resolved response)
      = (RequestOk (Response.status response) (Response.statusText response)
           (Response.headers response) body
           (endTime clock - startTime clock),
         mkState
           (Map.set (RequestArgs.apiName args)
              (ApiConfig.with_lastUsed (nowIso clock) config) (apiConfigs st))
           (addRequestToHistory request (requestHistory st))
           (authObjects st))
    ∧ ((length (requestHistory st) < 100)%nat →
       addRequestToHistory request (requestHistory st)
         = requestHistory st ++ [request])
    ∧ last (addRequestToHistory request (requestHistory st)) = Some request
    ∧ (RequestHistory.success request = true
       ↔ 200 ≤ Response.status response ≤ 299)
    ∧ RequestHistory.status request = Response.status response
    ∧ RequestHistory.apiName request = RequestArgs.apiName args
    ∧ RequestHistory.endpoint request = RequestArgs.endpoint args
    ∧ RequestHistory.method request
        = HttpMethod_name (RequestArgs.method args)
    ∧ RequestHistory.responseTime request = endTime clock - startTime clock
    ∧ RequestHistory.timestamp request = nowIso clock
    ∧ getApiConfig
        (make_request JSON_valid st args clock (Resolved response)).2
        (RequestArgs.apiName args)
      = Some (ApiConfig.with_lastUsed (nowIso clock) config)
    ∧ ApiConfig.lastUsed (ApiConfig.with_lastUsed (nowIso clock) config)
      = Some (nowIso clock).
Proof.
  intros Hconfig Hbody.
  eexists (RequestHistory.mk _ _ _ _ _ _ _).
  unfold make_request. rewrite Hconfig, Hbody. cbn [snd].
  split; [reflexivity|].
  split; [apply addRequestToHistory_below|].
  split.
  { unfold addRequestToHistory. case_decide.
    - destruct (requestHistory st); [cbn in *; lia|]. cbn. apply last_snoc.
    - apply last_snoc. }
  split; [apply Response_ok_spec|].
  repeat (split; [reflexivity|]).
  split; [|done].
  unfold getApiConfig. cbn. apply Map_get_set_eq.
Qed.

(** [parseResponse] returns a body unless the response declares a JSON body
    that is not valid JSON. *)
Lemma parseResponse_None (response : Response.t) :
  parseResponse JSON_valid response = None
  ↔ includes "application/json"
      (or_else (Response.headers response !! "content-type") "")
    && negb (JSON_valid (Response.text response)) = true.
Proof.
  unfold parseResponse.
  destruct (includes "application/json" _); cbn [andb].
  - destruct (JSON_valid (Response.text response)); cbn; split; done.
  - destruct (includes "text/" _);
      [|destruct (JSON_valid (Response.text response))]; split; done.
Qed.

(** C6 (as the code has it).  On a stored configuration, a call that
    completes with a response, whatever its status, inserts one record into
    the ledger through [addRequestToHistory], unless the response declares
    the content type [application/json] and its body is not valid JSON.  The
    record carries the call's name, method, endpoint, status and elapsed
    time, its [success] flag is true exactly for a status from 200 to 299,
    and the stored configuration differs from the former one only by
    [lastUsed], set to the completion timestamp (which is also the record's
    timestamp).  In the excepted case the call is reported as failed and
    the state is as it was: no record, no new [lastUsed]. *)
Theorem make_request_records_response st args clock response config :
  getApiConfig st (RequestArgs.apiName args) = Some config →
  let contentType :=
    or_else (Response.headers response !! "content-type") "" in
  let text := Response.text response in
  (includes "application/json" contentType && negb (JSON_valid text) = false →
   ∃ request body,
     parseResponse JSON_valid response = Some body
     ∧ make_request JSON_valid st args clock (Resolved response)
       = (RequestOk (Response.status response)
            (Response.statusText response) (Response.headers response) body
            (endTime clock - startTime clock),
          mkState
            (Map.set (RequestArgs.apiName args)
               (ApiConfig.with_lastUsed (nowIso clock) config)
               (apiConfigs st))
            (addRequestToHistory request (requestHistory st))
            (authObjects st))
     ∧ ((length (requestHistory st) < 100)%nat →
        addRequestToHistory request (requestHistory st)
          = requestHistory st ++ [request])
     ∧ last (addRequestToHistory request (requestHistory st)) = Some request
     ∧ (RequestHistory.success request = true
        ↔ 200 ≤ Response.status response ≤ 299)
     ∧ RequestHistory.status request = Response.status response
     ∧ RequestHistory.apiName request = RequestArgs.apiName args
     ∧ RequestHistory.endpoint request = RequestArgs.endpoint args
     ∧ RequestHistory.method request
         = HttpMethod_name (RequestArgs.method args)
     ∧ RequestHistory.responseTime request = endTime clock - startTime clock
     ∧ RequestHistory.timestamp request = nowIso clock
     ∧ getApiConfig
         (make_request JSON_valid st args clock (Resolved response)).2
         (RequestArgs.apiName args)
       = Some (ApiConfig.with_lastUsed (nowIso clock) config)
     ∧ ApiConfig.lastUsed (ApiConfig.with_lastUsed (nowIso clock) config)
       = Some (nowIso clock))
  ∧ (includes "application/json" contentType && negb (JSON_valid text) = true →
     make_request JSON_valid st args clock (Resolved response)
       = (RequestFailed BodyRejected, st)).
Proof.
  intros Hconfig contentType text. split.
  - intros Hread.
    destruct (parseResponse JSON_valid response) as [body|] eqn:Hbody.
    + destruct (make_request_records st args clock response config body
        Hconfig Hbody) as (request & Hrun).
      exists request, body. split; [done|exact Hrun].
    + apply parseResponse_None in Hbody.
      subst contentType text. congruence.
  - intros Hbad. apply parseResponse_None in Hbad.
    unfold make_request. by rewrite Hconfig, Hbad.
Qed.

(** C4 (as the code has it).  A call that ends in a timeout or in a
    rejection of the outbound call leaves the whole state as it was: no
    record is inserted and no [lastUsed] changes.  On a stored
    configuration, the timeout result carries the elapsed time and the
    failure result carries the error message. *)
Theorem make_request_without_response st args clock outcome :
  (∀ response, outcome ≠ Resolved response) →
  (make_request JSON_valid st args clock outcome).2 = st
  ∧ (∀ config,
       getApiConfig st (RequestArgs.apiName args) = Some config →
       match outcome with
       | Aborted =>
           (make_request JSON_valid st args clock outcome).1
             = RequestTimeout (endTime clock - startTime clock)
       | Rejected message =>
           (make_request JSON_valid st args clock outcome).1
             = RequestFailed (FetchRejected message)
       | Resolved _ => False
       end).
Proof.
  intros Hout. unfold make_request.
  destruct (getApiConfig st (RequestArgs.apiName args)) as [config|],
    outcome as [|message|response];
    try (by destruct (Hout response)); split; try done;
    intros ? [= <-]; done.
Qed.

(** A response whose body cannot be read takes the failure path as well. *)
Lemma make_request_body_rejected st args clock response config :
  getApiConfig st (RequestArgs.apiName args) = Some config →
  parseResponse JSON_valid response = None →
  make_request JSON_valid st args clock (Resolved response)
    = (RequestFailed BodyRejected, st).
Proof. intros Hc Hb. unfold make_request. by rewrite Hc, Hb. Qed.

(** A call on a name that is not stored fails and changes nothing. *)
Lemma make_request_unknown_api st args clock outcome :
  getApiConfig st (RequestArgs.apiName args) = None →
  make_request JSON_valid st args clock outcome
    = (RequestFailed (ApiNotFound (RequestArgs.apiName args)), st).
Proof. intros Hc. unfold make_request. by rewrite Hc. Qed.

(** The response summary is returned in that case only. *)
Lemma make_request_ok_inv st args clock outcome status statusText headers
    body responseTime :
  (make_request JSON_valid st args clock outcome).1
    = RequestOk status statusText headers body responseTime →
  ∃ config response,
    getApiConfig st (RequestArgs.apiName args) = Some config
    ∧ outcome = Resolved response
    ∧ parseResponse JSON_valid response = Some body.
Proof.
  unfold make_request.
  destruct (getApiConfig st (RequestArgs.apiName args)) as [config|]; [|done].
  destruct outcome as [|message|response]; [done..|].
  destruct (parseResponse JSON_valid response) as [body'|] eqn:Hb; [|done].
  cbn. intros [= _ _ _ -> _]. by exists config, response.
Qed.

(** No call makes the ledger longer than 100 records. *)
Lemma make_request_keeps_bound st args clock outcome :
  (length (requestHistory st) ≤ 100)%nat →
  (length (requestHistory (make_request JSON_valid st args clock outcome).2)
   ≤ 100)%nat.
Proof.
  intros Hlen. unfold make_request.
  destruct (getApiConfig st (RequestArgs.apiName args)) as [config|]; [|done].
  destruct outcome as [|message|response]; [done..|].
  destruct (parseResponse JSON_valid response); [|done].
  cbn. by apply addRequestToHistory_length.
Qed.

End Executor.

(** ** The configuration store *)

Section Store.

Variable URL_parses : string → bool.

Implicit Types (st : State) (args : SaveArgs.t) (now : string).

Ltac case_sanitize :=
  match goal with
  | |- context [sanitizeConfig ?s ?c] => destruct (sanitizeConfig s c)
  end.

Lemma check_auth_missing (t : AuthType) (credentials : Credentials.t) :
  missing_required t credentials = true →
  ∃ e, check_auth (Some (Auth.mk t (Some credentials))) = Some e
       ∧ IncompleteAuth e = true.
Proof.
  unfold missing_required, check_auth. destruct t; cbn.
  - intros ->. by eexists.
  - rewrite negb_andb. intros ->. by eexists.
  - rewrite negb_andb. intros ->. by eexists.
  - done.
Qed.

Lemma check_auth_complete (t : AuthType) (credentials : Credentials.t) :
  missing_required t credentials = false →
  check_auth (Some (Auth.mk t (Some credentials))) = None.
Proof.
  unfold missing_required, check_auth. destruct t; cbn.
  - by intros ->.
  - rewrite negb_andb. by intros ->.
  - rewrite negb_andb. by intros ->.
  - done.
Qed.

(** A save that fails leaves the state as it was. *)
Lemma save_api_failed_keeps_state st args now e st' :
  save_api URL_parses st args now = (SaveFailed e, st') → st' = st.
Proof.
  unfold save_api.
  destruct (Map.has _ _); [by intros [= _ <-]|].
  destruct (negb _); [by intros [= _ <-]|].
  destruct (check_auth _); [by intros [= _ <-]|].
  destruct (SaveArgs.auth args); case_sanitize; done.
Qed.

(** The check of the credentials object.  When [auth] comes with a
    credentials object that lacks a field its type requires, the save fails
    and the state is unchanged; the failure is [IncompleteAuth] when the
    name is free and the base URL is valid (otherwise the earlier check
    reports its own error).  With all required fields there, which includes
    type [none], a save under a free name and a valid base URL succeeds. *)
Lemma save_api_checks_credentials st args now t credentials :
  SaveArgs.auth args = Some (Auth.mk t (Some credentials)) →
  (missing_required t credentials = true →
   ∃ e, save_api URL_parses st args now = (SaveFailed e, st)
        ∧ (Map.has (SaveArgs.name args) (apiConfigs st) = false →
           validateUrl URL_parses (SaveArgs.baseUrl args) = true →
           IncompleteAuth e = true))
  ∧ (missing_required t credentials = false →
     Map.has (SaveArgs.name args) (apiConfigs st) = false →
     validateUrl URL_parses (SaveArgs.baseUrl args) = true →
     ∃ shown st', save_api URL_parses st args now = (SaveOk shown, st')).
Proof.
  intros Hauth. split.
  - intros Hmiss. unfold save_api. rewrite Hauth.
    destruct (check_auth_missing _ _ Hmiss) as (e & -> & He).
    destruct (Map.has _ _); [by eexists|].
    destruct (validateUrl _ _); cbn; by eexists.
  - intros Hok Hfree Hurl. unfold save_api.
    rewrite Hfree, Hurl, Hauth, (check_auth_complete _ _ Hok).
    cbn -[sanitizeConfig]. case_sanitize. by eexists _, _.
Qed.

(** Without a credentials object nothing is checked. *)
Lemma check_auth_no_credentials (t : AuthType) :
  check_auth (Some (Auth.mk t None)) = None.
Proof. done. Qed.

Lemma strip_trailing_slash_single (s : string) :
  ends_with_slash (strip_trailing_slash s) = true →
  ∃ r, s = r +:+ "//".
Proof.
  induction s as [|c s IH]; [done|].
  destruct s as [|d s].
  - cbn. case_decide as Hc; [done|].
    cbn. by intros Hc'%bool_decide_eq_true.
  - destruct s as [|e s].
    + cbn. case_decide as Hd; subst; cbn.
      * intros ->%bool_decide_eq_true. by exists "".
      * by intros Hd'%bool_decide_eq_true.
    + intros H. destruct IH as [r Hr]; [exact H|].
      exists (String c r). by rewrite Hr.
Qed.

(** What a successful save stores under the name. *)
Lemma save_api_stored st args now shown st' :
  save_api URL_parses st args now = (SaveOk shown, st') →
  ∃ config,
    getApiConfig st' (SaveArgs.name args) = Some config
    ∧ ApiConfig.name config = SaveArgs.name args
    ∧ ApiConfig.baseUrl config = strip_trailing_slash (SaveArgs.baseUrl args).
Proof.
  unfold save_api.
  destruct (Map.has _ _); [done|].
  destruct (negb _); [done|].
  destruct (check_auth _); [done|].
  destruct (SaveArgs.auth args) as [a|]; cbn.
  - unfold sanitizeConfig. cbn.
    destruct (_ !! _) as [[t [creds|]]|]; cbn; intros [= <- <-];
      eexists; (split; [apply Map_get_set_eq|done]).
  - intros [= <- <-]. eexists. split; [apply Map_get_set_eq|done].
Qed.

(** Only a base URL that ends in two slashes is stored with a trailing
    slash. *)
Lemma save_api_one_slash st args now shown st' config :
  save_api URL_parses st args now = (SaveOk shown, st') →
  getApiConfig st' (SaveArgs.name args) = Some config →
  ends_with_slash (ApiConfig.baseUrl config) = true →
  ∃ r, SaveArgs.baseUrl args = r +:+ "//".
Proof.
  intros Hsave Hget Hends.
  destruct (save_api_stored _ _ _ _ _ Hsave) as (config' & Hget' & _ & Hurl).
  rewrite Hget in Hget'. injection Hget' as <-.
  rewrite Hurl in Hends. by apply strip_trailing_slash_single.
Qed.

(** After a successful save the credentials behind the stored configuration
    are the redacted ones: the response was rendered through
    [sanitizeConfig], which wrote them into the shared [auth] object. *)
Lemma save_api_overwrites_credentials st args now shown st' t creds :
  save_api URL_parses st args now = (SaveOk shown, st') →
  SaveArgs.auth args = Some (Auth.mk t (Some creds)) →
  ∃ config,
    getApiConfig st' (SaveArgs.name args) = Some config
    ∧ auth_of st' config = Some (Auth.mk t (Some (redacted creds))).
Proof.
  intros Hsave Hauth. unfold save_api in Hsave.
  destruct (Map.has _ _); [done|].
  destruct (negb _); [done|].
  destruct (check_auth _); [done|].
  rewrite Hauth in Hsave. cbn in Hsave.
  unfold sanitizeConfig in Hsave. cbn in Hsave.
  rewrite lookup_app_r, Nat.sub_diag in Hsave by done. cbn in Hsave.
  injection Hsave as <- <-.
  eexists. split; [apply Map_get_set_eq|].
  unfold auth_of. cbn.
  rewrite list_lookup_insert_eq by (rewrite length_app; cbn; lia).
  done.
Qed.

End Store.

(** ** Search and fetch *)

Section SearchFetch.

Implicit Types (st : State) (query name : string) (config : ApiConfig.t).

Lemma bump_grows (test : bool) (points : Z) (reason : string)
    (acc : Z * list string) :
  0 ≤ points → acc.1 ≤ (bump test points reason acc).1.
Proof. intros Hp. unfold bump. destruct test; cbn; lia. Qed.

(** With the empty query the name test succeeds, so the score is at least
    10. *)
Lemma relevance_empty_query st name config :
  10 ≤ (relevance st "" name config).1.
Proof.
  unfold relevance. cbv zeta.
  do 4 (etrans; [|apply bump_grows; lia]). by rewrite includes_empty.
Qed.

Lemma config_result_empty_query st name config :
  ∃ r, config_result st "" (name, config) = [r]
       ∧ SearchResult.id r = "api-" +:+ name.
Proof.
  unfold config_result.
  pose proof (relevance_empty_query st name config) as Hscore.
  destruct (relevance st "" name config) as [score reasons]. cbn in Hscore.
  rewrite decide_True by lia. by eexists.
Qed.

(** The loop over the history only pushes: what is in the results stays. *)
Lemma endpoint_step_keeps st (queryLower : string) (r : SearchResult.t)
    (history : list RequestHistory.t) (acc : gset string * list SearchResult.t) :
  r ∈ acc.2 → r ∈ (foldl (endpoint_step st queryLower) acc history).2.
Proof.
  revert acc. induction history as [|request history IH]; intros acc Hr;
    [done|].
  cbn. apply IH. unfold endpoint_step. destruct acc as [seen results].
  destruct (request_matches _ _); [|done].
  case_decide; [done|]. cbn in *. apply elem_of_app. by left.
Qed.

Lemma searchResults_empty_query_has_config st name config :
  (name, config) ∈ apiConfigs st →
  ∃ r, r ∈ searchResults st "" ∧ SearchResult.id r = "api-" +:+ name.
Proof.
  intros Hin.
  destruct (config_result_empty_query st name config) as (r & Hr & Hid).
  exists r. split; [|done].
  unfold searchResults. apply endpoint_step_keeps. cbn [snd].
  apply list_elem_of_In, in_flat_map. exists (name, config).
  split; [by apply list_elem_of_In|].
  change (toLowerCase "") with "". rewrite Hr. by left.
Qed.

Lemma insert_by_title_perm (x : SearchResult.t) (l : list SearchResult.t) :
  insert_by_title x l ≡ₚ x :: l.
Proof.
  induction l as [|y l IH]; [done|]. cbn. case_decide; [done|].
  rewrite IH. apply Permutation_swap.
Qed.

(** Sorting keeps the results, each as often as before. *)
Lemma sort_by_title_perm (l : list SearchResult.t) : sort_by_title l ≡ₚ l.
Proof.
  induction l as [|x l IH]; [done|]. cbn.
  rewrite insert_by_title_perm. by rewrite IH.
Qed.

(** C10.  With the empty query every stored configuration scores above
    zero and its ["api-"] result is among the sorted results; the answer is
    the first 10 of the sorted results, so it holds every configuration
    when there are at most 10 results, and it is not empty when the store is
    not empty. *)
Theorem search_empty_query_matches_all st :
  (∀ name config,
     (name, config) ∈ apiConfigs st →
     0 < (relevance st (toLowerCase "") name config).1
     ∧ ∃ r, r ∈ sort_by_title (searchResults st "")
            ∧ SearchResult.id r = "api-" +:+ name)
  ∧ search st "" = take 10 (sort_by_title (searchResults st ""))
  ∧ ((length (searchResults st "") ≤ 10)%nat →
     ∀ name config,
       (name, config) ∈ apiConfigs st →
       ∃ r, r ∈ search st "" ∧ SearchResult.id r = "api-" +:+ name)
  ∧ (apiConfigs st ≠ [] → search st "" ≠ []).
Proof.
  assert (∀ name config, (name, config) ∈ apiConfigs st →
    ∃ r, r ∈ sort_by_title (searchResults st "")
         ∧ SearchResult.id r = "api-" +:+ name) as Hsorted.
  { intros name config Hin.
    destruct (searchResults_empty_query_has_config _ _ _ Hin) as (r & Hr & Hid).
    exists r. split; [|done]. by rewrite sort_by_title_perm. }
  split.
  { intros name config Hin. split; [|by eapply Hsorted].
    pose proof (relevance_empty_query st name config).
    change (toLowerCase "") with "". lia. }
  split; [done|]. split.
  - intros Hlen name config Hin. unfold search.
    rewrite take_ge; [by eapply Hsorted|].
    by rewrite sort_by_title_perm.
  - intros Hne. unfold search.
    destruct (apiConfigs st) as [|[name config] rest] eqn:Hst; [done|].
    destruct (Hsorted name config) as (r & Hr & _); [left|].
    destruct (sort_by_title (searchResults st "")); [by inversion Hr|done].
Qed.

Lemma fetch_api_missing st (n : string) :
  getApiConfig st n = None →
  fetch st ("api-" +:+ n) = FetchFailed (DocumentNotFound ("api-" +:+ n)).
Proof.
  intros Hnone. unfold fetch, fetch_api.
  rewrite startsWith_app, replace_first_prefix, Hnone. done.
Qed.

(** Deleting a configuration makes its ["api-"] document unavailable; the
    ledger is left as it was. *)
Lemma fetch_api_after_delete st (n : string) :
  NoDup (apiConfigs st).*1 →
  NotFound (fetch (delete_api st n).2 ("api-" +:+ n)) = true
  ∧ requestHistory (delete_api st n).2 = requestHistory st.
Proof.
  intros Hnd. unfold delete_api.
  destruct (getApiConfig st n) eqn:Hget; cbn [snd].
  - split; [|done]. rewrite fetch_api_missing; [done|].
    unfold getApiConfig. cbn. by apply Map_get_delete_eq.
  - split; [|done]. by rewrite fetch_api_missing.
Qed.

(** C9.  When no configuration is stored under [n], fetching ["api-" + n]
    fails with the not-found error, whatever the ledger holds. *)
Theorem fetch_api_without_configuration st (n : string) :
  getApiConfig st n = None →
  fetch st ("api-" +:+ n) = FetchFailed (DocumentNotFound ("api-" +:+ n))
  ∧ NotFound (fetch st ("api-" +:+ n)) = true.
Proof. intros Hnone. by rewrite fetch_api_missing. Qed.

End SearchFetch.

(** ** Endpoint identifiers do not survive [fetch] *)

Section EndpointIds.

Implicit Types (s t : string) (c : ascii).

Lemma has_char_app c s t : has_char c t = true → has_char c (s +:+ t) = true.
Proof.
  intros Ht. induction s as [|d s IH]; [done|].
  change (String d s +:+ t) with (String d (s +:+ t)). cbn.
  rewrite IH. apply orb_true_r.
Qed.

Lemma is_alnum_not_slash c : is_alnum c = true → c ≠ "/"%char.
Proof. by intros Hc ->. Qed.

Lemma replace_non_alnum_no_slash s :
  has_char "/" (replace_non_alnum s) = false.
Proof.
  induction s as [|c s IH]; [done|]. cbn.
  fold (replace_non_alnum s). rewrite IH, orb_false_r.
  destruct (is_alnum c) eqn:Hc.
  - apply bool_decide_eq_false_2. by apply is_alnum_not_slash.
  - done.
Qed.

Lemma replace_non_alnum_underscore s :
  has_non_alnum s = true → has_char "_" (replace_non_alnum s) = true.
Proof.
  induction s as [|c s IH]; [done|]. cbn. fold (replace_non_alnum s).
  destruct (is_alnum c); cbn.
  - intros H. rewrite IH by done. apply orb_true_r.
  - done.
Qed.

Lemma replace_underscores_slash s :
  has_char "_" s = true → has_char "/" (replace_underscores s) = true.
Proof.
  induction s as [|c s IH]; [done|]. cbn. fold (replace_underscores s).
  case_decide as Hc; [done|].
  rewrite (bool_decide_eq_false_2 _ Hc). cbn. intros H.
  rewrite IH by done. apply orb_true_r.
Qed.

Lemma split_not_nil c s : split c s ≠ [].
Proof.
  destruct s as [|d s]; [done|]. cbn. case_decide; [done|].
  by destruct (split c s).
Qed.

(** Joining the pieces of a split with the separator gives the string back. *)
Lemma join_split c s : join (String c "") (split c s) = s.
Proof.
  induction s as [|d s IH]; [done|]. cbn -[join].
  pose proof (split_not_nil c s) as Hne.
  destruct (split c s) as [|w ws]; [done|].
  case_decide as Hd.
  - subst d. change (join (String c "") ("" :: w :: ws))
      with (String c (join (String c "") (w :: ws))). by rewrite IH.
  - destruct ws as [|w' ws].
    + cbn in *. by rewrite IH.
    + change (join (String c "") (String d w :: w' :: ws))
        with (String d (join (String c "") (w :: w' :: ws))). by rewrite IH.
Qed.

(** Whatever dashes the API name holds, the part of the identifier after
    the first dash ends with the sanitized endpoint. *)
Lemma join_tail_split_keeps (c : ascii) (s t : string) :
  has_char c t = true →
  has_char c (join "-" (tail (split "-" (s +:+ "-" +:+ t)))) = true.
Proof.
  intros Ht. induction s as [|d s IH].
  - change ("" +:+ "-" +:+ t) with (String "-" t). cbn -[join].
    rewrite decide_True by done. cbn -[join]. by rewrite join_split.
  - change (String d s +:+ "-" +:+ t) with (String d (s +:+ "-" +:+ t)).
    cbn -[join]. case_decide.
    + cbn -[join]. rewrite join_split. by do 2 apply has_char_app.
    + pose proof (split_not_nil "-" (s +:+ "-" +:+ t)) as Hne.
      by destruct (split "-" (s +:+ "-" +:+ t)).
Qed.

Lemma fetch_api_endpoint_prefix (st : State) (s : string) :
  fetch_api st ("endpoint-" +:+ s) = None.
Proof. done. Qed.

(** The identifier [search] gives to an endpoint with a character outside
    [[a-zA-Z0-9]] (a slash, say) is never found by [fetch]: the part after
    the name has its underscores turned into slashes and is then compared
    with sanitized endpoints, which hold no slash. *)
Lemma fetch_endpoint_id_not_found (st : State) (apiName endpoint : string) :
  has_non_alnum endpoint = true →
  NotFound (fetch st (endpoint_id apiName endpoint)) = true.
Proof.
  intros Hnon. unfold endpoint_id, fetch.
  rewrite startsWith_app, replace_first_prefix, fetch_api_endpoint_prefix.
  case_decide; [done|].
  destruct (getApiConfig _ _) as [config|]; [|done].
  assert (∀ l : list RequestHistory.t,
    filter (λ r, RequestHistory.apiName r
                 = hd "" (split "-" (apiName +:+ "-" +:+ replace_non_alnum endpoint))
               ∧ replace_non_alnum (RequestHistory.endpoint r)
                 = replace_underscores
                     (join "-" (tail (split "-"
                        (apiName +:+ "-" +:+ replace_non_alnum endpoint))))) l
    = []) as ->; [|done].
  intros l. induction l as [|r l IH]; [done|].
  rewrite filter_cons, IH. case_decide as Hr; [|done].
  destruct Hr as [_ Heq].
  pose proof (replace_non_alnum_no_slash (RequestHistory.endpoint r)) as Hno.
  rewrite Heq, replace_underscores_slash in Hno; [done|].
  apply join_tail_split_keeps. by apply replace_non_alnum_underscore.
Qed.

End EndpointIds.

(** * The properties at concrete inputs *)

Section Concrete.

(** C1.  Saving a bearer configuration and rendering the response leaves
    ["[REDACTED]"] in place of the token in the [auth] object of the stored
    configuration, and that is what a later request sends. *)
Theorem save_api_loses_secret :
  ∃ config,
    getApiConfig github_saved "github" = Some config
    ∧ auth_of github_saved config
      = Some (Auth.mk bearer
          (Some (Credentials.mk (Some "[REDACTED]") None None None None)))
    ∧ auth_of github_saved config ≠ SaveArgs.auth github_args
    ∧ buildHeaders github_saved config None !! "Authorization"
      = Some "Bearer [REDACTED]".
Proof.
  eexists. split; [vm_compute; reflexivity|].
  split; [vm_compute; reflexivity|].
  split; [vm_compute; discriminate|].
  vm_compute. reflexivity.
Qed.

(** C2.  With configuration [jp] stored and one call of [GET /posts/1] in
    the ledger, [search] for ["posts"] gives the endpoint the identifier
    ["endpoint-jp-_posts_1"], and [fetch] of that identifier fails. *)
Theorem search_id_not_fetchable :
  is_Some (getApiConfig jp_called "jp")
  ∧ requestHistory jp_called = [jp_record]
  ∧ SearchResult.id <$> search jp_called "posts"
    = ["api-jp"; endpoint_id "jp" "/posts/1"]
  ∧ endpoint_id "jp" "/posts/1" = "endpoint-jp-_posts_1"
  ∧ fetch jp_called "endpoint-jp-_posts_1"
    = FetchFailed (DocumentNotFound "endpoint-jp-_posts_1").
Proof.
  split; [vm_compute; eauto|].
  repeat split; vm_compute; reflexivity.
Qed.

(** C3.  A bearer configuration sent without a credentials object, under
    a free name and with a valid base URL, is saved although it has no
    token, and a call on it carries no [Authorization] header; sent with an
    empty credentials object, the same configuration is refused for the
    missing token and nothing is stored. *)
Theorem save_api_accepts_bare_bearer :
  SaveArgs.auth bare_bearer_args = Some (Auth.mk bearer None)
  ∧ Map.has (SaveArgs.name bare_bearer_args) (apiConfigs initial) = false
  ∧ validateUrl SampleUrl.parses (SaveArgs.baseUrl bare_bearer_args) = true
  ∧ (∃ shown st' config,
       save_api SampleUrl.parses initial bare_bearer_args "t"
         = (SaveOk shown, st')
       ∧ getApiConfig st' "gh" = Some config
       ∧ auth_of st' config = Some (Auth.mk bearer None)
       ∧ buildHeaders st' config None !! "Authorization" = None)
  ∧ SaveArgs.auth tokenless_args
    = Some (Auth.mk bearer (Some (Credentials.mk None None None None None)))
  ∧ save_api SampleUrl.parses initial tokenless_args "t"
    = (SaveFailed BearerRequiresToken, initial)
  ∧ IncompleteAuth BearerRequiresToken = true.
Proof.
  split; [reflexivity|]. split; [reflexivity|].
  split; [vm_compute; reflexivity|].
  split.
  { eexists _, _, _. split; [vm_compute; reflexivity|].
    split; [vm_compute; reflexivity|].
    split; vm_compute; reflexivity. }
  split; [reflexivity|]. split; [vm_compute; reflexivity|]. reflexivity.
Qed.

(** The checks of the name and of the base URL come first: incomplete
    credentials under a name that is taken fail with [AlreadyExists]. *)
Lemma save_api_taken_name_first :
  save_api SampleUrl.parses github_saved tokenless_github_args "t"
    = (SaveFailed (AlreadyExists "github"), github_saved)
  ∧ IncompleteAuth (AlreadyExists "github") = false.
Proof. split; [vm_compute; reflexivity|reflexivity]. Qed.

(** C4, as stated, fails: the result of a call that the network rejected
    is the same after 5 ms as after 3000 ms, and reports no time. *)
Lemma make_request_failure_without_elapsed :
  (make_request sampleJson jp_saved get_post (mkClock 1000 1005 "t")
     (Rejected "connect ECONNREFUSED")).1
  = (make_request sampleJson jp_saved get_post (mkClock 1000 4000 "t")
       (Rejected "connect ECONNREFUSED")).1
  ∧ reported_time
      (make_request sampleJson jp_saved get_post (mkClock 1000 1005 "t")
         (Rejected "connect ECONNREFUSED")).1
    ≠ Some 5.
Proof. split; [vm_compute; reflexivity|]. vm_compute. discriminate. Qed.

(** C6, as stated, fails: an answer with status 204, the content type
    [application/json] and an empty body completes the call, and the call
    is reported as failed; the ledger has no record of it and the
    configuration has no [lastUsed]. *)
Lemma make_request_empty_json_unrecorded :
  Response.status empty_json_response = 204
  ∧ Response.ok empty_json_response = true
  ∧ make_request sampleJson jp_saved get_post jp_clock
      (Resolved empty_json_response)
    = (RequestFailed BodyRejected, jp_saved)
  ∧ requestHistory
      (make_request sampleJson jp_saved get_post jp_clock
         (Resolved empty_json_response)).2 = []
  ∧ getApiConfig
      (make_request sampleJson jp_saved get_post jp_clock
         (Resolved empty_json_response)).2 "jp" ≫= ApiConfig.lastUsed
    = None.
Proof. repeat split; vm_compute; reflexivity. Qed.

(** C7.  A configuration whose API key is to be sent in a header named
    [__proto__]: the headers built for a call are the per-call headers over
    the default headers over [Content-Type], and the key is not among them.
    With the header named [X-API-Key] the same key is sent, and [save_api]
    accepts the configuration. *)
Theorem buildHeaders_drops_proto_key :
  auth_of proto_store proto_config
    = Some (Auth.mk api_key
        (Some (Credentials.mk None (Some "k123") None None
                 (Some "__proto__"))))
  ∧ buildHeaders proto_store proto_config traced
    = {[ "Content-Type" := "application/json";
         "Accept" := "text/plain";
         "X-Trace" := "from-call" ]}
  ∧ buildHeaders proto_store proto_config traced !! "__proto__" = None
  ∧ buildHeaders named_store proto_config traced !! "X-API-Key" = Some "k123"
  ∧ ∃ shown st' config,
      save_api SampleUrl.parses initial proto_args "2024-05-01T10:00:00.000Z"
        = (SaveOk shown, st')
      ∧ getApiConfig st' "px" = Some config
      ∧ buildHeaders st' config traced !! "__proto__" = None.
Proof.
  split; [reflexivity|].
  split; [vm_compute; reflexivity|].
  split; [vm_compute; reflexivity|].
  split; [vm_compute; reflexivity|].
  eexists _, _, _. split; [vm_compute; reflexivity|].
  split; [vm_compute; reflexivity|].
  vm_compute. reflexivity.
Qed.

(** C8.  A base URL that ends in two slashes is accepted and stored with
    one of them. *)
Theorem save_api_double_slash :
  validateUrl SampleUrl.parses "https://example.com//" = true
  ∧ ∃ shown st' config,
      save_api SampleUrl.parses initial double_slash_args "t"
        = (SaveOk shown, st')
      ∧ getApiConfig st' "ex" = Some config
      ∧ ApiConfig.baseUrl config = "https://example.com/"
      ∧ ends_with_slash (ApiConfig.baseUrl config) = true.
Proof.
  split; [vm_compute; reflexivity|].
  eexists _, _, _. split; [vm_compute; reflexivity|].
  repeat split; vm_compute; reflexivity.
Qed.

Lemma save_api_checks_credentials_sample :
  (∃ e, save_api SampleUrl.parses initial tokenless_args "t"
          = (SaveFailed e, initial)
        ∧ IncompleteAuth e = true)
  ∧ (∃ shown st',
       save_api SampleUrl.parses initial basic_args "t" = (SaveOk shown, st')).
Proof.
  split.
  - destruct (proj1 (save_api_checks_credentials SampleUrl.parses initial
      tokenless_args "t" bearer _ eq_refl) eq_refl) as (e & He & Hinc).
    exists e. split; [exact He|]. apply Hinc; reflexivity.
  - apply (proj2 (save_api_checks_credentials SampleUrl.parses initial
      basic_args "t" basic _ eq_refl)); reflexivity.
Qed.

Lemma make_request_without_response_witness :
  (make_request sampleJson jp_saved get_post jp_clock Aborted).2 = jp_saved
  ∧ (make_request sampleJson jp_saved get_post jp_clock Aborted).1
    = RequestTimeout 42
  ∧ (make_request sampleJson jp_saved get_post jp_clock
       (Rejected "connect ECONNREFUSED")).2 = jp_saved
  ∧ (make_request sampleJson jp_saved get_post jp_clock
       (Rejected "connect ECONNREFUSED")).1
    = RequestFailed (FetchRejected "connect ECONNREFUSED").
Proof.
  destruct (make_request_without_response sampleJson jp_saved get_post
    jp_clock Aborted) as [Hst Hres]; [discriminate|].
  destruct (make_request_without_response sampleJson jp_saved get_post
    jp_clock (Rejected "connect ECONNREFUSED")) as [Hst' Hres'];
    [discriminate|].
  split; [exact Hst|]. split; [eapply Hres; reflexivity|].
  split; [exact Hst'|]. eapply Hres'; reflexivity.
Defined.

Lemma ledger_bounded_fifo_witness :
  addRequestToHistory jp_record [] = [jp_record]
  ∧ addRequestToHistory jp_record (replicate 100 jp_record)
    = tail (replicate 100 jp_record) ++ [jp_record]
  ∧ length (addRequestToHistory jp_record (replicate 100 jp_record)) = 100%nat.
Proof.
  split.
  - destruct (ledger_bounded_fifo jp_record []) as (_ & Hbelow & _);
      [cbn; lia|].
    apply Hbelow. cbn. lia.
  - destruct (ledger_bounded_fifo jp_record (replicate 100 jp_record))
      as (_ & _ & Hfull); [rewrite length_replicate; lia|].
    destruct Hfull as (Heq & Hlen & _); [apply length_replicate|].
    split; [exact Heq | exact Hlen].
Defined.

Lemma make_request_records_response_witness :
  (∃ request,
     requestHistory
       (make_request sampleJson jp_saved get_post jp_clock
          (Resolved missing_response)).2 = [request]
     ∧ RequestHistory.success request = false
     ∧ RequestHistory.status request = 404)
  ∧ make_request sampleJson jp_saved get_post jp_clock
      (Resolved empty_json_response)
    = (RequestFailed BodyRejected, jp_saved).
Proof.
  split.
  - destruct (proj1 (make_request_records_response sampleJson jp_saved
      get_post jp_clock missing_response _ eq_refl) eq_refl)
      as (request & body & _ & Hrun & Happ & _ & Hsucc & Hstatus & _).
    exists request. rewrite Hrun. split; [apply Happ; vm_compute; lia|].
    split; [|exact Hstatus].
    destruct (RequestHistory.success request); [|reflexivity].
    destruct Hsucc as [Hsucc _]. specialize (Hsucc eq_refl).
    cbn in Hsucc. lia.
  - apply (proj2 (make_request_records_response sampleJson jp_saved
      get_post jp_clock empty_json_response _ eq_refl)).
    reflexivity.
Defined.

Lemma buildHeaders_auth_last_sample :
  buildHeaders keyed (config_at 0%nat) forged !! "Authorization"
    = Some "Bearer tok"
  ∧ buildHeaders keyed (config_at 1%nat) forged !! "X-API-Key" = Some "k123"
  ∧ buildHeaders keyed (config_at 2%nat) forged !! "Authorization"
    = Some "Basic dXNlcjpwYXNz".
Proof.
  split; [|split].
  - apply (proj1 (buildHeaders_auth_last keyed (config_at 0%nat) forged)
             _ "tok" eq_refl eq_refl). discriminate.
  - apply (proj1 (proj2
             (buildHeaders_auth_last keyed (config_at 1%nat) forged))
             _ "k123" "X-API-Key" eq_refl eq_refl);
      [discriminate|reflexivity|discriminate|discriminate].
  - apply (proj2 (proj2
             (buildHeaders_auth_last keyed (config_at 2%nat) forged))
             _ "user" "pass" eq_refl eq_refl);
      [discriminate|reflexivity|discriminate].
Qed.

(** A property named [__proto__] that the per-call headers have of their
    own is copied by the spread, and then the key is assigned to it. *)
Lemma buildHeaders_proto_sample :
  buildHeaders proto_store proto_config proto_headers !! "__proto__"
    = Some "k123".
Proof.
  rewrite (buildHeaders_proto proto_store proto_config proto_headers
             _ "k123" eq_refl eq_refl); [reflexivity|discriminate|reflexivity].
Qed.

Lemma fetch_api_without_configuration_witness :
  fetch (delete_api jp_called "jp").2 "api-jp"
    = FetchFailed (DocumentNotFound "api-jp")
  ∧ requestHistory (delete_api jp_called "jp").2 = [jp_record].
Proof.
  split; [|reflexivity].
  apply (fetch_api_without_configuration (delete_api jp_called "jp").2 "jp").
  reflexivity.
Defined.

Lemma search_empty_query_matches_all_witness :
  (∃ r, r ∈ search github_saved "" ∧ SearchResult.id r = "api-github")
  ∧ search github_saved "" ≠ [].
Proof.
  destruct (search_empty_query_matches_all github_saved)
    as (_ & _ & Hall & Hne).
  split.
  - apply (Hall ltac:(vm_compute; lia) "github" github_config).
    apply list_elem_of_In. vm_compute. left. reflexivity.
  - apply Hne. discriminate.
Defined.

End Concrete.

(** * Further properties *)

(** ** The store as a map *)

Section MapMore.

Context {V : Type}.
Implicit Types (m : list (string * V)) (k : string).

Lemma Map_get_None_keys k m : Map.get k m = None ↔ k ∉ m.*1.
Proof.
  induction m as [|[k' v'] m IH]; cbn.
  - split; [intros _; apply not_elem_of_nil|done].
  - rewrite not_elem_of_cons. destruct (decide (k' = k)) as [->|Hk].
    + split; [done|]. by intros [? _].
    + rewrite IH. split; [by split|by intros [_ ?]].
Qed.

Lemma Map_elem_of_get k (v : V) m :
  NoDup m.*1 → (k, v) ∈ m → Map.get k m = Some v.
Proof.
  induction m as [|[k' v'] m IH]; cbn.
  - intros _ Hin. by apply elem_of_nil in Hin.
  - intros [Hnotin Hnd]%NoDup_cons [Heq|Hin]%elem_of_cons.
    + injection Heq as <- <-. by rewrite decide_True.
    + rewrite decide_False; [by apply IH|].
      intros ->. apply Hnotin. apply list_elem_of_fmap. by exists (k, v).
Qed.

Lemma Map_elem_of_is_Some k (v : V) m : (k, v) ∈ m → is_Some (Map.get k m).
Proof.
  intros Hin. destruct (Map.get k m) eqn:Hg; [done|].
  apply Map_get_None_keys in Hg. destruct Hg.
  apply list_elem_of_fmap. by exists (k, v).
Qed.

Lemma Map_set_fresh k (v : V) m :
  Map.get k m = None → Map.set k v m = m ++ [(k, v)].
Proof.
  induction m as [|[k' v'] m IH]; cbn; [done|].
  destruct (decide (k' = k)); [done|]. intros H. by rewrite IH.
Qed.

Lemma Map_set_keys k (v v0 : V) m :
  Map.get k m = Some v0 → (Map.set k v m).*1 = m.*1.
Proof.
  induction m as [|[k' v'] m IH]; cbn; [done|].
  destruct (decide (k' = k)); [done|]. intros H. cbn. by rewrite IH.
Qed.

Lemma Map_set_elem_of k (v : V) m k' v' :
  (k', v') ∈ Map.set k v m → (k', v') ∈ m ∨ (k' = k ∧ v' = v).
Proof.
  induction m as [|[k0 v0] m IH]; cbn.
  - intros [Heq|Hin]%elem_of_cons; [|by apply elem_of_nil in Hin].
    injection Heq as -> ->. by right.
  - destruct (decide (k0 = k)) as [->|Hk].
    + intros [Heq|Hin]%elem_of_cons.
      * injection Heq as -> ->. by right.
      * left. by right.
    + intros [Heq|Hin]%elem_of_cons.
      * left. rewrite Heq. left.
      * destruct (IH Hin) as [?|?]; [left; by right|by right].
Qed.

Lemma Map_set_omap {B} (f : string * V → option B) k (v v0 : V) m :
  Map.get k m = Some v0 → f (k, v) = f (k, v0) →
  omap f (Map.set k v m) = omap f m.
Proof.
  intros Hget Hf. induction m as [|[k' v'] m IH]; cbn in *; [done|].
  destruct (decide (k' = k)) as [->|Hk].
  - injection Hget as ->. cbn. by rewrite Hf.
  - cbn. by rewrite IH.
Qed.

Lemma Map_delete_elem_of k m k' (v' : V) :
  (k', v') ∈ Map.delete k m → (k', v') ∈ m.
Proof.
  induction m as [|[k0 v0] m IH]; cbn; [done|].
  destruct (decide (k0 = k)).
  - intros H. by right.
  - intros [Heq|Hin]%elem_of_cons; [rewrite Heq; left|right; auto].
Qed.

Lemma Map_delete_sublist k m : Map.delete k m `sublist_of` m.
Proof.
  induction m as [|[k0 v0] m IH]; cbn; [done|].
  destruct (decide (k0 = k)).
  - by apply sublist_cons.
  - by apply sublist_skip.
Qed.

Lemma Map_get_delete_ne k k' m :
  k ≠ k' → Map.get k' (Map.delete k m) = Map.get k' m.
Proof.
  intros Hne. induction m as [|[k0 v0] m IH]; cbn; [done|].
  destruct (decide (k0 = k)) as [->|Hk]; cbn.
  - by rewrite decide_False.
  - by rewrite IH.
Qed.

(** Deleting a key that was just added to a store without it gives the
    store back. *)
Lemma Map_delete_set_fresh k (v : V) m :
  Map.get k m = None → Map.delete k (Map.set k v m) = m.
Proof.
  induction m as [|[k' v'] m IH]; cbn.
  - by rewrite decide_True.
  - destruct (decide (k' = k)) as [->|Hk]; [done|]. intros H. cbn.
    rewrite decide_False by done. by rewrite IH.
Qed.

End MapMore.

(** ** What [sanitizeConfig] changes *)

Section Sanitize.

Implicit Types (st : State) (config : ApiConfig.t).

Lemma sanitizeConfig_copy st config : (sanitizeConfig st config).1 = config.
Proof.
  unfold sanitizeConfig. destruct (ApiConfig.auth config); [|done].
  by destruct (authObjects st !! _) as [[t [creds|]]|].
Qed.

Lemma sanitizeConfig_state st config :
  apiConfigs (sanitizeConfig st config).2 = apiConfigs st
  ∧ requestHistory (sanitizeConfig st config).2 = requestHistory st
  ∧ length (authObjects (sanitizeConfig st config).2)
    = length (authObjects st).
Proof.
  unfold sanitizeConfig. destruct (ApiConfig.auth config); [|done].
  destruct (authObjects st !! _) as [[t [creds|]]|]; try done.
  cbn. by rewrite length_insert.
Qed.

Lemma sanitizeConfig_other st config (r : ref) :
  ApiConfig.auth config ≠ Some r →
  authObjects (sanitizeConfig st config).2 !! r = authObjects st !! r.
Proof.
  intros Hne. unfold sanitizeConfig.
  destruct (ApiConfig.auth config) as [r0|]; [|done].
  destruct (authObjects st !! r0) as [[t [creds|]]|]; try done.
  cbn. apply list_lookup_insert_ne. congruence.
Qed.

(** The object the configuration refers to, after the call. *)
Lemma sanitizeConfig_own st config :
  auth_of (sanitizeConfig st config).2 config =
    match auth_of st config with
    | Some (Auth.mk t (Some creds)) => Some (Auth.mk t (Some (redacted creds)))
    | other => other
    end.
Proof.
  unfold sanitizeConfig, auth_of.
  destruct (ApiConfig.auth config) as [r|]; [|done].
  destruct (authObjects st !! r) as [[t [creds|]]|] eqn:Hl; cbn;
    rewrite ?Hl; try done.
  rewrite list_lookup_insert_eq; [done|]. by eapply lookup_lt_Some.
Qed.

Lemma redacted_shows_no_secret (creds : Credentials.t) :
  shows_no_secret (redacted creds).
Proof.
  unfold shows_no_secret, redacted, redact. cbn.
  destruct (truthy (Credentials.token creds)),
    (truthy (Credentials.apiKey creds)),
    (truthy (Credentials.password creds)); auto.
Qed.

Lemma redact_redact (o : option string) : redact (redact o) = redact o.
Proof. unfold redact. by destruct (truthy o). Qed.

Lemma redacted_redacted (creds : Credentials.t) :
  redacted (redacted creds) = redacted creds.
Proof. unfold redacted. cbn. by rewrite !redact_redact. Qed.

End Sanitize.

(** ** The invariant of the reachable states *)

Section Invariant.

Variables URL_parses JSON_valid : string → bool.

Implicit Types (st : State) (config : ApiConfig.t).

Lemma well_formed_initial : well_formed initial.
Proof.
  unfold well_formed, initial, auth_refs. cbn.
  split; [apply NoDup_nil_2|]. split; [apply NoDup_nil_2|].
  split; [intros ?? []%elem_of_nil|]. split; [lia|].
  intros ? []%elem_of_nil.
Qed.

Lemma well_formed_heap st (objects : list Auth.t) :
  length objects = length (authObjects st) →
  well_formed st →
  well_formed (mkState (apiConfigs st) (requestHistory st) objects).
Proof.
  intros Hlen (Hk & Hr & He & Hl & Hs). unfold well_formed. cbn.
  split; [done|]. split; [done|]. split; [|by split].
  intros name config Hin. destruct (He name config Hin) as (Hn & Ht & Hb).
  split; [done|]. split; [done|]. intros r Hauth. rewrite Hlen. by apply Hb.
Qed.

Lemma well_formed_sanitize st config :
  well_formed st → well_formed (sanitizeConfig st config).2.
Proof.
  intros Hwf. destruct (sanitizeConfig_state st config) as (Hc & Hh & Hl).
  destruct (sanitizeConfig st config).2 as [cs hs os] eqn:Hst. cbn in *.
  subst cs hs. by apply (well_formed_heap st).
Qed.

Lemma auth_refs_bound st (r : ref) :
  well_formed st → r ∈ auth_refs st → (r < length (authObjects st))%nat.
Proof.
  intros (_ & _ & He & _) Hin. unfold auth_refs in Hin.
  apply list_elem_of_omap in Hin as ([name config] & Hin & Hauth).
  by eapply He.
Qed.

(** [save_api], with the configuration it builds named. *)
Lemma save_api_unfold st args now :
  save_api URL_parses st args now =
    if Map.has (SaveArgs.name args) (apiConfigs st)
    then (SaveFailed (AlreadyExists (SaveArgs.name args)), st)
    else if negb (validateUrl URL_parses (SaveArgs.baseUrl args))
    then (SaveFailed InvalidBaseUrl, st)
    else
      match check_auth (SaveArgs.auth args) with
      | Some e => (SaveFailed e, st)
      | None =>
          let config := saved_config st args now in
          let st1 :=
            mkState
              (Map.set (SaveArgs.name args) config (apiConfigs st))
              (requestHistory st)
              (authObjects st ++ option_list (SaveArgs.auth args)) in
          (SaveOk (stringify (sanitizeConfig st1 config).2 config),
           (sanitizeConfig st1 config).2)
      end.
Proof.
  unfold save_api, saved_config.
  destruct (Map.has _ _); [done|].
  destruct (negb _); [done|].
  destruct (check_auth _); [done|].
  destruct (SaveArgs.auth args) as [a|]; cbn -[sanitizeConfig].
  - match goal with
    | |- context [sanitizeConfig ?s ?c] =>
        pose proof (sanitizeConfig_copy s c);
        destruct (sanitizeConfig s c) as [c' s']
    end. cbn in *. by subst.
  - rewrite app_nil_r.
    match goal with
    | |- context [sanitizeConfig ?s ?c] =>
        pose proof (sanitizeConfig_copy s c);
        destruct (sanitizeConfig s c) as [c' s']
    end. cbn in *. by subst.
Qed.

Lemma well_formed_save st args now :
  well_formed st → well_formed (save_api URL_parses st args now).2.
Proof.
  intros Hwf. rewrite save_api_unfold.
  destruct (Map.has _ _) eqn:Hhas; [done|].
  destruct (negb _); [done|].
  destruct (check_auth _); [done|].
  apply Map_has_get in Hhas.
  assert (well_formed
    (mkState
       (Map.set (SaveArgs.name args) (saved_config st args now) (apiConfigs st))
       (requestHistory st)
       (authObjects st ++ option_list (SaveArgs.auth args)))) as Hwf1.
  { pose proof Hwf as (Hk & Hr & He & Hl & Hs).
    rewrite Map_set_fresh by done. unfold well_formed. cbn.
    split; [|split; [|split; [|by split]]].
    - rewrite fmap_app. cbn. apply NoDup_app. split; [done|]. split.
      + intros k Hin [->|[]%elem_of_nil]%elem_of_cons.
        by apply Map_get_None_keys in Hhas.
      + apply NoDup_singleton.
    - unfold auth_refs. cbn. rewrite omap_app. cbn.
      destruct (SaveArgs.auth args) as [a|]; cbn; [|by rewrite app_nil_r].
      apply NoDup_app. split; [done|]. split; [|apply NoDup_singleton].
      intros r Hin [->|[]%elem_of_nil]%elem_of_cons.
      pose proof (auth_refs_bound st _ Hwf Hin). lia.
    - intros name config [Hin|[Heq|[]%elem_of_nil]%elem_of_cons]%elem_of_app.
      + destruct (He name config Hin) as (Hn & Ht & Hb).
        split; [done|]. split; [done|]. intros r Hauth. rewrite length_app.
        specialize (Hb r Hauth). lia.
      + injection Heq as -> ->. split; [done|]. split; [by eexists|].
        intros r Hauth. rewrite length_app. cbn in Hauth.
        destruct (SaveArgs.auth args); cbn in *; [|done].
        injection Hauth as <-. lia. }
  cbn zeta. cbn [snd]. by apply well_formed_sanitize.
Qed.

Lemma well_formed_get st (name : string) :
  well_formed st → well_formed (get_api st name).2.
Proof.
  intros Hwf. unfold get_api.
  destruct (getApiConfig st name) as [config|]; [|done].
  pose proof (well_formed_sanitize st config Hwf).
  by destruct (sanitizeConfig st config).
Qed.

Lemma omap_sublist {A B} (f : A → option B) (l1 l2 : list A) :
  l1 `sublist_of` l2 → omap f l1 `sublist_of` omap f l2.
Proof.
  induction 1 as [|x l1 l2 _ IH|x l1 l2 _ IH]; cbn; [done|..];
    destruct (f x); try done; by constructor.
Qed.

Lemma well_formed_delete st (name : string) :
  well_formed st → well_formed (delete_api st name).2.
Proof.
  intros Hwf. unfold delete_api.
  destruct (getApiConfig st name) as [config|]; [|done].
  destruct Hwf as (Hk & Hr & He & Hl & Hs). unfold well_formed. cbn.
  split; [|split; [|split; [|by split]]].
  - eapply sublist_NoDup; [exact Hk|].
    apply fmap_sublist, Map_delete_sublist.
  - eapply sublist_NoDup; [exact Hr|].
    apply omap_sublist, Map_delete_sublist.
  - intros name' config' Hin%Map_delete_elem_of. by apply He.
Qed.

Lemma addRequestToHistory_elem_of (request r : RequestHistory.t)
    (history : list RequestHistory.t) :
  r ∈ addRequestToHistory request history → r = request ∨ r ∈ history.
Proof.
  unfold addRequestToHistory. case_decide.
  - destruct history as [|r0 history]; cbn.
    + intros []%elem_of_nil.
    + intros [Hin|[->|[]%elem_of_nil]%elem_of_cons]%elem_of_app;
        [right; by right|by left].
  - intros [Hin|[->|[]%elem_of_nil]%elem_of_cons]%elem_of_app;
      [by right|by left].
Qed.

Lemma well_formed_request st args clock outcome :
  well_formed st →
  well_formed (make_request JSON_valid st args clock outcome).2.
Proof.
  intros Hwf. unfold make_request.
  destruct (getApiConfig st (RequestArgs.apiName args)) as [config|] eqn:Hget;
    [|done].
  destruct outcome as [|message|response]; [done..|].
  destruct (parseResponse JSON_valid response); [|done].
  pose proof Hwf as (Hk & Hr & He & Hl & Hs). unfold well_formed. cbn.
  unfold getApiConfig in Hget.
  split; [|split; [|split; [|split]]].
  - by rewrite (Map_set_keys _ _ _ _ Hget).
  - unfold auth_refs. cbn. by erewrite Map_set_omap.
  - intros name config' [Hin|[-> ->]]%Map_set_elem_of; [by apply He|].
    apply Map_get_elem_of in Hget. by apply He in Hget.
  - by apply addRequestToHistory_length.
  - intros r [->|Hin]%addRequestToHistory_elem_of; [|by apply Hs].
    cbn. apply Response_ok_spec.
Qed.

Lemma well_formed_sanitize_all st (configs : list ApiConfig.t) :
  well_formed st → well_formed (sanitize_all st configs).
Proof.
  revert st. induction configs as [|config configs IH]; intros st Hwf;
    [done|].
  change (sanitize_all st (config :: configs))
    with (sanitize_all (sanitizeConfig st config).2 configs).
  by apply IH, well_formed_sanitize.
Qed.

(** X1.  Every state the handlers can reach from the empty one keeps the
    invariant: no two entries of the store have the same name, no two refer
    to the same [auth] object, every entry is filed under its own name with
    a timeout and a reference into the heap, the ledger holds at most 100
    records, and each record's [success] flag says that its status is from
    200 to 299. *)
Theorem reachable_well_formed st :
  reachable URL_parses JSON_valid st → well_formed st.
Proof.
  induction 1 as [|st st' _ IH Hstep]; [apply well_formed_initial|].
  destruct Hstep.
  - by apply well_formed_save.
  - by apply well_formed_get.
  - by apply well_formed_delete.
  - by apply well_formed_request.
  - by apply well_formed_sanitize_all.
Qed.

End Invariant.

(** ** More on the configuration store *)

Section StoreMore.

Variable URL_parses : string → bool.

Implicit Types (st : State) (args : SaveArgs.t) (now name : string).

(** The state after a successful save. *)
Lemma save_api_ok_inv st args now shown st' :
  save_api URL_parses st args now = (SaveOk shown, st') →
  getApiConfig st (SaveArgs.name args) = None
  ∧ validateUrl URL_parses (SaveArgs.baseUrl args) = true
  ∧ st' = (sanitizeConfig
             (mkState
                (apiConfigs st ++ [(SaveArgs.name args, saved_config st args now)])
                (requestHistory st)
                (authObjects st ++ option_list (SaveArgs.auth args)))
             (saved_config st args now)).2.
Proof.
  rewrite save_api_unfold.
  destruct (Map.has _ _) eqn:Hhas; [done|].
  destruct (validateUrl _ _); [|done].
  destruct (check_auth _); [done|].
  apply Map_has_get in Hhas. cbn zeta. intros [= _ <-].
  split; [done|]. split; [done|]. by rewrite Map_set_fresh.
Qed.

(** X2.  After a successful save, a second save under the same name fails
    with [AlreadyExists] and leaves the state as it is, whatever else it
    asks for. *)
Theorem save_api_twice st args now shown st' args' now' :
  save_api URL_parses st args now = (SaveOk shown, st') →
  SaveArgs.name args' = SaveArgs.name args →
  save_api URL_parses st' args' now'
    = (SaveFailed (AlreadyExists (SaveArgs.name args)), st').
Proof.
  intros (Hfresh & _ & ->)%save_api_ok_inv Hname.
  rewrite save_api_unfold, Hname.
  destruct (sanitizeConfig_state
    (mkState (apiConfigs st ++ [(SaveArgs.name args, saved_config st args now)])
       (requestHistory st) (authObjects st ++ option_list (SaveArgs.auth args)))
    (saved_config st args now)) as (-> & _).
  cbn. rewrite <- (Map_set_fresh _ _ _ Hfresh).
  unfold Map.has. by rewrite Map_get_set_eq.
Qed.

(** X3.  A successful save files, under the name, the configuration built
    from the arguments: the base URL without its last slash, the
    description unless it is empty, the headers, the timeout or 30000, the
    creation time, and no [lastUsed]; the ledger is not touched. *)
Theorem save_api_stores st args now shown st' :
  save_api URL_parses st args now = (SaveOk shown, st') →
  ∃ config,
    getApiConfig st' (SaveArgs.name args) = Some config
    ∧ ApiConfig.name config = SaveArgs.name args
    ∧ ApiConfig.baseUrl config = strip_trailing_slash (SaveArgs.baseUrl args)
    ∧ ApiConfig.description config
      = (if truthy (SaveArgs.description args)
         then SaveArgs.description args else None)
    ∧ ApiConfig.headers config = SaveArgs.headers args
    ∧ ApiConfig.timeout config = Some (default 30000 (SaveArgs.timeout args))
    ∧ ApiConfig.createdAt config = now
    ∧ ApiConfig.lastUsed config = None
    ∧ shown = stringify st' config
    ∧ requestHistory st' = requestHistory st.
Proof.
  intros Hsave. pose proof Hsave as (Hfresh & _ & Hst')%save_api_ok_inv.
  exists (saved_config st args now).
  destruct (sanitizeConfig_state
    (mkState (apiConfigs st ++ [(SaveArgs.name args, saved_config st args now)])
       (requestHistory st) (authObjects st ++ option_list (SaveArgs.auth args)))
    (saved_config st args now)) as (Hc & Hh & _).
  rewrite <- Hst' in Hc, Hh. cbn in Hc, Hh.
  split.
  { unfold getApiConfig. rewrite Hc, <- (Map_set_fresh _ _ _ Hfresh).
    apply Map_get_set_eq. }
  do 7 (split; [done|]). split; [|done].
  revert Hsave. rewrite save_api_unfold.
  destruct (Map.has _ _); [done|]. destruct (negb _); [done|].
  destruct (check_auth _); [done|]. cbn zeta. by intros [= <- <-].
Qed.

(** X4.  A successful save leaves every configuration under another name
    as it was, and in a well-formed state also the [auth] object each of
    them refers to. *)
Theorem save_api_frame st args now shown st' :
  save_api URL_parses st args now = (SaveOk shown, st') →
  (∀ name config,
     getApiConfig st name = Some config →
     getApiConfig st' name = Some config
     ∧ (well_formed st → auth_of st' config = auth_of st config))
  ∧ (∀ name,
       name ≠ SaveArgs.name args →
       getApiConfig st' name = getApiConfig st name).
Proof.
  intros (Hfresh & _ & ->)%save_api_ok_inv.
  set (st1 := mkState _ _ _).
  destruct (sanitizeConfig_state st1 (saved_config st args now))
    as (Hc & _ & _).
  assert (∀ name, name ≠ SaveArgs.name args →
    getApiConfig (sanitizeConfig st1 (saved_config st args now)).2 name
      = getApiConfig st name) as Hother.
  { intros name Hne. unfold getApiConfig. rewrite Hc. cbn.
    rewrite <- (Map_set_fresh _ _ _ Hfresh). by apply Map_get_set_ne. }
  split; [|exact Hother].
  intros name config Hget.
  assert (name ≠ SaveArgs.name args) as Hne by congruence.
  split; [by rewrite Hother|].
  intros (_ & _ & He & _). unfold auth_of.
  destruct (ApiConfig.auth config) as [r|] eqn:Hauth; [|done].
  apply Map_get_elem_of in Hget. destruct (He _ _ Hget) as (_ & _ & Hb).
  specialize (Hb r Hauth).
  rewrite sanitizeConfig_other.
  - cbn. by rewrite lookup_app_l.
  - cbn. destruct (SaveArgs.auth args); cbn; [|done].
    intros [= Heq]. lia.
Qed.

(** X5.  The rejections of a save: a name that is taken gives
    [AlreadyExists]; a free name with a base URL that starts with neither
    [http://] nor [https://] gives [InvalidBaseUrl], whatever the URL parser
    says; and no rejected save changes the state. *)
Theorem save_api_rejections st args now :
  (is_Some (getApiConfig st (SaveArgs.name args)) →
   save_api URL_parses st args now
     = (SaveFailed (AlreadyExists (SaveArgs.name args)), st))
  ∧ (getApiConfig st (SaveArgs.name args) = None →
     startsWith "http://" (SaveArgs.baseUrl args) = false →
     startsWith "https://" (SaveArgs.baseUrl args) = false →
     save_api URL_parses st args now = (SaveFailed InvalidBaseUrl, st))
  ∧ (∀ e st', save_api URL_parses st args now = (SaveFailed e, st') → st' = st).
Proof.
  rewrite save_api_unfold. unfold Map.has, getApiConfig, validateUrl.
  split; [|split].
  - intros [config ->]. done.
  - intros -> -> ->. by destruct (URL_parses _).
  - intros e st'. destruct (Map.get _ _); [by intros [= _ <-]|].
    destruct (negb _); [by intros [= _ <-]|].
    destruct (check_auth _); [by intros [= _ <-]|done].
Qed.

End StoreMore.

(** ** Reading and deleting configurations *)

Section GetDelete.

Variable URL_parses : string → bool.

Implicit Types (st : State) (name : string).

Lemma get_api_unfold st name :
  get_api st name =
    match getApiConfig st name with
    | None => (GetFailed name, st)
    | Some config =>
        (GetOk (stringify (sanitizeConfig st config).2 config),
         (sanitizeConfig st config).2)
    end.
Proof.
  unfold get_api. destruct (getApiConfig st name) as [config|]; [|done].
  pose proof (sanitizeConfig_copy st config).
  destruct (sanitizeConfig st config). cbn in *. by subst.
Qed.

(** X6.  What [get_api] shows.  For a name that is not stored it fails and
    changes nothing.  Otherwise it shows the stored configuration, and of
    the credentials behind it the user name and the header name as they
    are, and each of token, API key and password as the marker
    ["[REDACTED]"] or not at all. *)
Theorem get_api_shows_no_secret st name :
  (getApiConfig st name = None → get_api st name = (GetFailed name, st))
  ∧ (∀ config,
       getApiConfig st name = Some config →
       ∃ rendered st',
         get_api st name = (GetOk rendered, st')
         ∧ shown rendered = config
         ∧ (∀ t creds,
              auth_of st config = Some (Auth.mk t (Some creds)) →
              ∃ creds',
                shown_auth rendered = Some (Auth.mk t (Some creds'))
                ∧ shows_no_secret creds'
                ∧ Credentials.username creds' = Credentials.username creds
                ∧ Credentials.headerName creds'
                  = Credentials.headerName creds
                ∧ (is_Some (Credentials.token creds')
                   ↔ truthy (Credentials.token creds) = true)
                ∧ (is_Some (Credentials.apiKey creds')
                   ↔ truthy (Credentials.apiKey creds) = true)
                ∧ (is_Some (Credentials.password creds')
                   ↔ truthy (Credentials.password creds) = true))
         ∧ (∀ t, auth_of st config = Some (Auth.mk t None) →
                 shown_auth rendered = Some (Auth.mk t None))
         ∧ (auth_of st config = None → shown_auth rendered = None)).
Proof.
  rewrite get_api_unfold. split; [by intros ->|].
  intros config ->. eexists _, _. split; [done|]. split; [done|].
  cbn. rewrite sanitizeConfig_own.
  split; [|split].
  - intros t creds ->. exists (redacted creds). split; [done|].
    split; [apply redacted_shows_no_secret|]. do 2 (split; [done|]).
    unfold redacted, redact. cbn.
    destruct (truthy (Credentials.token creds)),
      (truthy (Credentials.apiKey creds)),
      (truthy (Credentials.password creds));
      repeat split; intros; try done; by eauto using is_Some_None.
  - by intros t ->.
  - by intros ->.
Qed.

(** X7.  Reading a configuration a second time gives the same answer and
    the same state as the first time. *)
Theorem get_api_idempotent st name :
  get_api (get_api st name).2 name = get_api st name.
Proof.
  rewrite !get_api_unfold.
  destruct (getApiConfig st name) as [config|] eqn:Hget; cbn [snd];
    [|by rewrite Hget].
  destruct (sanitizeConfig_state st config) as (Hc & _).
  unfold getApiConfig in *. rewrite Hc, Hget.
  assert ((sanitizeConfig (sanitizeConfig st config).2 config).2
          = (sanitizeConfig st config).2) as ->; [|done].
  unfold sanitizeConfig at 1.
  destruct (ApiConfig.auth config) as [r|] eqn:Hauth; [|done].
  pose proof (sanitizeConfig_own st config) as Hown.
  unfold auth_of in Hown. rewrite Hauth in Hown. rewrite Hown.
  destruct (authObjects st !! r) as [[t [creds|]]|] eqn:Hl; try done.
  change (Credentials.mk _ _ _ _ _) with (redacted (redacted creds)).
  rewrite redacted_redacted.
  destruct (sanitizeConfig st config).2 as [cs hs os] eqn:Hst. cbn in *.
  f_equal. by apply list_insert_id.
Qed.

(** X8.  Deleting a name that is not stored fails and changes nothing.
    Deleting a stored name, in a store without repeated names, removes it
    and leaves every other entry, the ledger and the [auth] objects as they
    were. *)
Theorem delete_api_removes st name :
  (getApiConfig st name = None →
   delete_api st name = (DeleteFailed name, st))
  ∧ (is_Some (getApiConfig st name) →
     (delete_api st name).1 = DeleteOk name
     ∧ (NoDup (apiConfigs st).*1 →
        getApiConfig (delete_api st name).2 name = None)
     ∧ (∀ name', name' ≠ name →
          getApiConfig (delete_api st name).2 name' = getApiConfig st name')
     ∧ requestHistory (delete_api st name).2 = requestHistory st
     ∧ authObjects (delete_api st name).2 = authObjects st).
Proof.
  unfold delete_api. split; [by intros ->|].
  intros [config ->]. cbn. split; [done|]. split.
  { intros Hnd. by apply Map_get_delete_eq. }
  split; [|done]. intros name' Hne. unfold getApiConfig. cbn.
  by apply Map_get_delete_ne.
Qed.

(** X9.  Saving a configuration and deleting it again gives back the
    store and the ledger as they were before the save. *)
Theorem save_then_delete st args now rendered st' :
  save_api URL_parses st args now = (SaveOk rendered, st') →
  (delete_api st' (SaveArgs.name args)).1 = DeleteOk (SaveArgs.name args)
  ∧ apiConfigs (delete_api st' (SaveArgs.name args)).2 = apiConfigs st
  ∧ requestHistory (delete_api st' (SaveArgs.name args)).2
    = requestHistory st.
Proof.
  intros (Hfresh & _ & ->)%save_api_ok_inv.
  set (st1 := mkState _ _ _).
  destruct (sanitizeConfig_state st1 (saved_config st args now))
    as (Hc & Hh & _).
  unfold delete_api, getApiConfig. rewrite Hc, Hh. cbn.
  rewrite <- (Map_set_fresh _ _ _ Hfresh), Map_get_set_eq. cbn.
  split; [done|]. split; [|done]. by apply Map_delete_set_fresh.
Qed.

End GetDelete.

(** ** More on the request executor *)

Section ExecutorMore.

Variable JSON_valid : string → bool.

Implicit Types (st : State) (args : RequestArgs.t) (clock : Clock).

(** X10.  Whatever the outcome, a call leaves the [auth] objects, the
    names in the store and every configuration under another name as they
    were; the called configuration is unchanged or differs by [lastUsed]
    only; the ledger is unchanged or has received one record; and a call on
    a name that is not stored changes nothing. *)
Theorem make_request_frame st args clock outcome :
  authObjects (make_request JSON_valid st args clock outcome).2
    = authObjects st
  ∧ (apiConfigs (make_request JSON_valid st args clock outcome).2).*1
    = (apiConfigs st).*1
  ∧ (∀ name, name ≠ RequestArgs.apiName args →
       getApiConfig (make_request JSON_valid st args clock outcome).2 name
         = getApiConfig st name)
  ∧ (∀ config,
       getApiConfig st (RequestArgs.apiName args) = Some config →
       getApiConfig (make_request JSON_valid st args clock outcome).2
         (RequestArgs.apiName args) = Some config
       ∨ getApiConfig (make_request JSON_valid st args clock outcome).2
           (RequestArgs.apiName args)
         = Some (ApiConfig.with_lastUsed (nowIso clock) config))
  ∧ (requestHistory (make_request JSON_valid st args clock outcome).2
       = requestHistory st
     ∨ ∃ request,
         requestHistory (make_request JSON_valid st args clock outcome).2
           = addRequestToHistory request (requestHistory st))
  ∧ (getApiConfig st (RequestArgs.apiName args) = None →
     make_request JSON_valid st args clock outcome
       = (RequestFailed (ApiNotFound (RequestArgs.apiName args)), st)).
Proof.
  unfold make_request.
  destruct (getApiConfig st (RequestArgs.apiName args)) as [config|] eqn:Hget.
  - destruct outcome as [|message|response];
      [..|destruct (parseResponse JSON_valid response)].
    1,2,4: split_and!; try done; try (by left);
      try (intros ? [= <-]; by left).
    cbn. split_and!; try done.
    + by erewrite Map_set_keys.
    + intros name Hne. by apply Map_get_set_ne.
    + intros ? [= <-]. right. apply Map_get_set_eq.
    + right. by eexists.
  - split_and!; try done. by left.
Qed.

(** X11.  On a stored configuration, a call that is answered fails exactly
    when the answer declares a JSON body that is not valid JSON; the status
    plays no part.  Otherwise the result carries the status and the body:
    as JSON when declared, as text under a [text/] type, and else as JSON
    when it parses and as text when it does not. *)
Theorem make_request_body_outcome st args clock response config :
  getApiConfig st (RequestArgs.apiName args) = Some config →
  let contentType :=
    or_else (Response.headers response !! "content-type") "" in
  let text := Response.text response in
  if includes "application/json" contentType && negb (JSON_valid text)
  then make_request JSON_valid st args clock (Resolved response)
       = (RequestFailed BodyRejected, st)
  else (make_request JSON_valid st args clock (Resolved response)).1
       = RequestOk (Response.status response) (Response.statusText response)
           (Response.headers response)
           (if includes "application/json" contentType then JsonBody text
            else if includes "text/" contentType then TextBody text
            else if JSON_valid text then JsonBody text
            else TextBody text)
           (endTime clock - startTime clock).
Proof.
  intros Hget. cbn zeta. unfold make_request, parseResponse. rewrite Hget.
  destruct (includes "application/json" _); cbn [andb].
  - by destruct (JSON_valid (Response.text response)).
  - destruct (includes "text/" _); [done|].
    by destruct (JSON_valid (Response.text response)).
Qed.

End ExecutorMore.

(** ** URLs *)

Section Urls.

Implicit Types (s t baseUrl endpoint : string).

Lemma append_assoc s t u : (s +:+ t) +:+ u = s +:+ t +:+ u.
Proof.
  induction s as [|c s IH]; [done|].
  change ((String c s +:+ t) +:+ u) with (String c ((s +:+ t) +:+ u)).
  by rewrite IH.
Qed.

Lemma append_empty_r s : s +:+ "" = s.
Proof.
  induction s as [|c s IH]; [done|].
  change (String c s +:+ "") with (String c (s +:+ "")). by rewrite IH.
Qed.

Lemma strip_trailing_slash_app s : strip_trailing_slash (s +:+ "/") = s.
Proof.
  induction s as [|c s IH]; [done|].
  change (String c s +:+ "/") with (String c (s +:+ "/")).
  assert (∀ r, r ≠ "" →
    strip_trailing_slash (String c r) = String c (strip_trailing_slash r))
    as Hcons by (by intros [|d r]).
  rewrite Hcons, IH; [done|]. by destruct s.
Qed.

Lemma strip_trailing_slash_id s :
  ends_with_slash s = false → strip_trailing_slash s = s.
Proof.
  induction s as [|c s IH]; [done|]. destruct s as [|d s].
  - cbn. intros Hc%bool_decide_eq_false. by rewrite decide_False.
  - intros H.
    change (strip_trailing_slash (String c (String d s)))
      with (String c (strip_trailing_slash (String d s))).
    by rewrite IH.
Qed.

Lemma all_chars_app p s t :
  all_chars p (s +:+ t) = all_chars p s && all_chars p t.
Proof.
  induction s as [|c s IH]; [done|].
  change (String c s +:+ t) with (String c (s +:+ t)). cbn.
  by rewrite IH, andb_assoc.
Qed.

Lemma encode_char_safe (c : ascii) :
  all_chars query_char (UrlEncoded.encode_char c) = true.
Proof. destruct c as [[] [] [] [] [] [] [] []]; reflexivity. Qed.

Lemma encode_safe s : all_chars query_char (UrlEncoded.encode s) = true.
Proof.
  induction s as [|c s IH]; [done|]. cbn.
  by rewrite all_chars_app, encode_char_safe, IH.
Qed.

Lemma serialize_safe (l : list (string * string)) :
  all_chars query_char (UrlEncoded.serialize l) = true.
Proof.
  unfold UrlEncoded.serialize.
  induction l as [|kv l IH]; [done|]. cbn [fmap list_fmap join].
  assert (all_chars query_char (UrlEncoded.pair kv) = true) as Hkv.
  { unfold UrlEncoded.pair. by rewrite !all_chars_app, !encode_safe. }
  destruct l as [|kv' l]; [done|].
  cbn [fmap list_fmap] in *. by rewrite !all_chars_app, Hkv, IH.
Qed.

Lemma appended_app (l1 l2 : list (string * JsValue)) :
  appended (l1 ++ l2) = appended l1 ++ appended l2.
Proof.
  induction l1 as [|[k [| |text]] l1 IH]; cbn; by rewrite ?IH.
Qed.

(** X12.  One slash between base and endpoint: for a base URL that does
    not end in a slash and an endpoint that does not begin with one, the
    four spellings, with and without the slash on either side, give the same
    URL, which without parameters is base, slash, endpoint. *)
Theorem buildUrl_one_slash baseUrl endpoint queryParams :
  ends_with_slash baseUrl = false →
  startsWith "/" endpoint = false →
  buildUrl (baseUrl +:+ "/") ("/" +:+ endpoint) queryParams
    = buildUrl baseUrl endpoint queryParams
  ∧ buildUrl (baseUrl +:+ "/") endpoint queryParams
    = buildUrl baseUrl endpoint queryParams
  ∧ buildUrl baseUrl ("/" +:+ endpoint) queryParams
    = buildUrl baseUrl endpoint queryParams
  ∧ buildUrl baseUrl endpoint None = baseUrl +:+ "/" +:+ endpoint.
Proof.
  intros Hb He. unfold buildUrl, cleanEndpoint.
  rewrite strip_trailing_slash_app, (strip_trailing_slash_id _ Hb), He.
  change (startsWith "/" ("/" +:+ endpoint)) with true. done.
Qed.

(** X13.  Parameters whose value is [null] or [undefined] are left out of
    the query string, but they count when the code decides to write the
    question mark: with parameters that are all left out the URL ends in a
    bare [?]; with no parameters there is none. *)
Theorem buildUrl_skips_null baseUrl endpoint :
  buildUrl baseUrl endpoint (Some []) = buildUrl baseUrl endpoint None
  ∧ (∀ entries,
       entries ≠ [] → appended entries = [] →
       buildUrl baseUrl endpoint (Some entries)
         = buildUrl baseUrl endpoint None +:+ "?")
  ∧ (∀ entries1 key value entries2,
       value = js_null ∨ value = js_undefined →
       entries1 ++ entries2 ≠ [] →
       buildUrl baseUrl endpoint (Some (entries1 ++ (key, value) :: entries2))
         = buildUrl baseUrl endpoint (Some (entries1 ++ entries2))).
Proof.
  unfold buildUrl. split; [done|]. split.
  - intros entries Hne ->. rewrite decide_True; [done|].
    destruct entries; [done|cbn; lia].
  - intros entries1 key value entries2 Hv Hne.
    rewrite !appended_app.
    assert (appended ((key, value) :: entries2) = appended entries2) as ->.
    { by destruct Hv as [-> | ->]. }
    rewrite !decide_True; [done|..].
    + destruct entries1, entries2; cbn in *; try done; lia.
    + rewrite length_app. cbn. lia.
Qed.

(** X14.  With at least one parameter the URL is the URL without
    parameters, a question mark, and a query string in which only letters,
    digits and [* - . _ + % = &] occur: every other character of a name or
    a value is percent-encoded. *)
Theorem buildUrl_query_is_encoded baseUrl endpoint entries :
  entries ≠ [] →
  ∃ query,
    buildUrl baseUrl endpoint (Some entries)
      = buildUrl baseUrl endpoint None +:+ "?" +:+ query
    ∧ query = UrlEncoded.serialize (appended entries)
    ∧ all_chars query_char query = true.
Proof.
  intros Hne. eexists. split; [|split; [done|apply serialize_safe]].
  unfold buildUrl. rewrite decide_True; [|destruct entries; [done|cbn; lia]].
  by rewrite append_assoc.
Qed.

End Urls.

(** ** Sorted answers *)

Section Sorting.

Context {A : Type} (R : A → A → Prop).

Lemma sorted_by_lookup (l : list A) (i j : nat) (a b : A) :
  sorted_by R l → (i < j)%nat → l !! i = Some a → l !! j = Some b → R a b.
Proof.
  revert i j. induction l as [|x l IH]; intros i j Hs Hij Hi Hj; [done|].
  destruct Hs as [Hx Hl]. destruct j as [|j]; [lia|]. cbn in Hj.
  destruct i as [|i]; cbn in Hi.
  - injection Hi as ->. rewrite Forall_forall in Hx. apply Hx.
    by eapply list_elem_of_lookup_2.
  - eapply (IH i j); [done|lia|done..].
Qed.

Lemma sorted_by_take (l : list A) (n : nat) :
  sorted_by R l → sorted_by R (take n l).
Proof.
  revert n. induction l as [|x l IH]; intros [|n] Hs; try done.
  destruct Hs as [Hx Hl]. cbn. split; [|by apply IH].
  by apply Forall_take.
Qed.

End Sorting.

Section ListingOrder.

Variable Date_getTime : string → Z.

#[local] Abbreviation before := (listed_before Date_getTime).

Lemma listed_before_total (a b : ApiConfig.t) : before a b ∨ before b a.
Proof.
  unfold listed_before, compare_configs.
  destruct (truthy (ApiConfig.lastUsed a)), (truthy (ApiConfig.lastUsed b));
    cbn; lia.
Qed.

Lemma listed_before_trans (a b c : ApiConfig.t) :
  before a b → before b c → before a c.
Proof.
  unfold listed_before, compare_configs.
  destruct (truthy (ApiConfig.lastUsed a)), (truthy (ApiConfig.lastUsed b)),
    (truthy (ApiConfig.lastUsed c)); cbn; lia.
Qed.

Lemma insert_config_perm (x : ApiConfig.t) (l : list ApiConfig.t) :
  insert_config Date_getTime x l ≡ₚ x :: l.
Proof.
  induction l as [|y l IH]; [done|]. cbn. case_decide; [done|].
  rewrite IH. apply Permutation_swap.
Qed.

Lemma sort_configs_perm (l : list ApiConfig.t) :
  sort_configs Date_getTime l ≡ₚ l.
Proof.
  induction l as [|x l IH]; [done|]. cbn.
  rewrite insert_config_perm. by rewrite IH.
Qed.

Lemma insert_config_sorted (x : ApiConfig.t) (l : list ApiConfig.t) :
  sorted_by before l → sorted_by before (insert_config Date_getTime x l).
Proof.
  induction l as [|y l IH]; intros Hs; [by split|].
  destruct Hs as [Hy Hl]. cbn. case_decide as Hxy.
  - split; [|by split]. constructor; [done|].
    eapply Forall_impl; [exact Hy|]. intros z Hyz.
    by eapply listed_before_trans.
  - split; [|by apply IH].
    rewrite insert_config_perm. constructor; [|done].
    by destruct (listed_before_total x y).
Qed.

Lemma sort_configs_sorted (l : list ApiConfig.t) :
  sorted_by before (sort_configs Date_getTime l).
Proof.
  induction l as [|x l IH]; [done|]. cbn. by apply insert_config_sorted.
Qed.

(** X15.  [list_apis] answers with one summary for each stored
    configuration.  Of two summaries the earlier one is never unused when
    the later one was used; if both were used the earlier was used no
    earlier than the later; if neither was used the earlier was created no
    earlier than the later. *)
Theorem list_apis_order st :
  ApiSummary.name <$> list_apis Date_getTime st
    ≡ₚ (λ entry, ApiConfig.name entry.2) <$> apiConfigs st
  ∧ length (list_apis Date_getTime st) = length (apiConfigs st)
  ∧ (∀ i j a b,
       (i < j)%nat →
       list_apis Date_getTime st !! i = Some a →
       list_apis Date_getTime st !! j = Some b →
       (truthy (ApiSummary.lastUsed b) = true →
        truthy (ApiSummary.lastUsed a) = true)
       ∧ (truthy (ApiSummary.lastUsed a) = true →
          truthy (ApiSummary.lastUsed b) = true →
          Date_getTime (default "" (ApiSummary.lastUsed b))
            ≤ Date_getTime (default "" (ApiSummary.lastUsed a)))
       ∧ (truthy (ApiSummary.lastUsed a) = false →
          truthy (ApiSummary.lastUsed b) = false →
          Date_getTime (ApiSummary.createdAt b)
            ≤ Date_getTime (ApiSummary.createdAt a))).
Proof.
  unfold list_apis. split; [|split].
  - rewrite <- list_fmap_compose.
    rewrite (sort_configs_perm ((apiConfigs st).*2)).
    by rewrite <- list_fmap_compose.
  - by rewrite length_fmap, sort_configs_perm, length_fmap.
  - intros i j a b Hij Hi Hj.
    apply list_lookup_fmap_Some in Hi as (ca & -> & Hi).
    apply list_lookup_fmap_Some in Hj as (cb & -> & Hj).
    pose proof (sorted_by_lookup before _ i j ca cb
      (sort_configs_sorted _) Hij Hi Hj) as Hab.
    unfold listed_before, compare_configs in Hab. cbn.
    destruct (truthy (ApiConfig.lastUsed ca)),
      (truthy (ApiConfig.lastUsed cb)); cbn in Hab;
      repeat split; intros; try done; lia.
Qed.

End ListingOrder.

(** ** More on search and fetch *)

Section SearchMore.

Implicit Types (st : State) (query name : string) (config : ApiConfig.t).

Lemma insert_by_title_sorted (x : SearchResult.t) (l : list SearchResult.t) :
  sorted_by title_not_shorter l →
  sorted_by title_not_shorter (insert_by_title x l).
Proof.
  induction l as [|y l IH]; intros Hs; [by split|].
  destruct Hs as [Hy Hl]. cbn. case_decide as Hxy.
  - split; [|by split]. constructor; [done|].
    eapply Forall_impl; [exact Hy|]. unfold title_not_shorter. intros z. lia.
  - split; [|by apply IH].
    rewrite insert_by_title_perm. constructor; [|done].
    unfold title_not_shorter. lia.
Qed.

Lemma sort_by_title_sorted (l : list SearchResult.t) :
  sorted_by title_not_shorter (sort_by_title l).
Proof.
  induction l as [|x l IH]; [done|]. cbn. by apply insert_by_title_sorted.
Qed.

Lemma search_subset st query (r : SearchResult.t) :
  r ∈ search st query → r ∈ searchResults st query.
Proof.
  unfold search. intros Hin.
  rewrite <- (sort_by_title_perm (searchResults st query)).
  by apply (subseteq_take 10).
Qed.

(** X16.  [search] answers with at most 10 results, none of them before a
    result with a longer title, and all of them taken from the results
    found. *)
Theorem search_capped_sorted st query :
  (length (search st query) ≤ 10)%nat
  ∧ sorted_by title_not_shorter (search st query)
  ∧ (∀ r, r ∈ search st query → r ∈ searchResults st query)
  ∧ ((length (searchResults st query) ≤ 10)%nat →
     search st query ≡ₚ searchResults st query).
Proof.
  split; [|split; [|split]].
  - unfold search. rewrite length_take. lia.
  - apply sorted_by_take, sort_by_title_sorted.
  - apply search_subset.
  - intros Hlen. unfold search. rewrite take_ge.
    + apply sort_by_title_perm.
    + by rewrite sort_by_title_perm.
Qed.

Lemma relevance_name_match st (queryLower : string) name config :
  includes queryLower (toLowerCase name) = true →
  10 ≤ (relevance st queryLower name config).1.
Proof.
  intros Hname. unfold relevance. cbv zeta.
  do 4 (etrans; [|apply bump_grows; lia]). by rewrite Hname.
Qed.

(** X17.  A stored configuration whose name contains the query, letter
    case aside, is among the results found, under the identifier ["api-"]
    followed by its name and with its base URL followed by [/info]; it is
    in the answer when at most 10 results are found. *)
Theorem search_finds_name st query name config :
  (name, config) ∈ apiConfigs st →
  includes (toLowerCase query) (toLowerCase name) = true →
  ∃ r,
    r ∈ searchResults st query
    ∧ SearchResult.id r = "api-" +:+ name
    ∧ SearchResult.url r = ApiConfig.baseUrl config +:+ "/info"
    ∧ ((length (searchResults st query) ≤ 10)%nat → r ∈ search st query).
Proof.
  intros Hin Hname.
  pose proof (relevance_name_match st _ name config Hname) as Hscore.
  assert (∃ r, config_result st (toLowerCase query) (name, config) = [r]
               ∧ SearchResult.id r = "api-" +:+ name
               ∧ SearchResult.url r = ApiConfig.baseUrl config +:+ "/info")
    as (r & Hr & Hid & Hurl).
  { unfold config_result.
    destruct (relevance st (toLowerCase query) name config) as [score reasons].
    cbn in Hscore. rewrite decide_True by lia. by eexists. }
  assert (r ∈ searchResults st query) as Hfound.
  { unfold searchResults. apply endpoint_step_keeps. cbn [snd].
    apply list_elem_of_In, in_flat_map. exists (name, config).
    split; [by apply list_elem_of_In|]. rewrite Hr. by left. }
  exists r. do 3 (split; [done|]).
  intros Hlen. unfold search. rewrite take_ge.
  - by rewrite sort_by_title_perm.
  - by rewrite sort_by_title_perm.
Qed.

(** Where a result comes from: a stored configuration, or a record of the
    ledger. *)
Lemma endpoint_step_origin st (queryLower : string)
    (Q : SearchResult.t → Prop) (history : list RequestHistory.t)
    (acc : gset string * list SearchResult.t) :
  (∀ r, r ∈ acc.2 → Q r) →
  (∀ request, request ∈ history →
     ∀ title url,
       Q (SearchResult.mk
            (endpoint_id (RequestHistory.apiName request)
               (RequestHistory.endpoint request)) title url)) →
  ∀ r, r ∈ (foldl (endpoint_step st queryLower) acc history).2 → Q r.
Proof.
  revert acc. induction history as [|request history IH];
    intros acc Hacc Hhist; [done|].
  cbn. apply IH.
  - unfold endpoint_step. destruct acc as [seen results].
    destruct (request_matches _ _); [|done].
    case_decide; [done|]. cbn.
    intros r [Hin|[->|[]%elem_of_nil]%elem_of_cons]%elem_of_app;
      [by apply Hacc|]. apply Hhist. left.
  - intros request' Hin. apply Hhist. by right.
Qed.

Lemma searchResults_origin st query (r : SearchResult.t) :
  r ∈ searchResults st query →
  (∃ name config,
     (name, config) ∈ apiConfigs st ∧ SearchResult.id r = "api-" +:+ name)
  ∨ (∃ request,
       request ∈ requestHistory st
       ∧ SearchResult.id r
         = endpoint_id (RequestHistory.apiName request)
             (RequestHistory.endpoint request)).
Proof.
  revert r. unfold searchResults.
  apply (endpoint_step_origin st (toLowerCase query)
    (λ r, (∃ name config,
             (name, config) ∈ apiConfigs st
             ∧ SearchResult.id r = "api-" +:+ name)
          ∨ (∃ request,
               request ∈ requestHistory st
               ∧ SearchResult.id r
                 = endpoint_id (RequestHistory.apiName request)
                     (RequestHistory.endpoint request)))); cbn [snd].
  - intros r' Hin. left.
    apply list_elem_of_In, in_flat_map in Hin as ([name config] & Hin & Hr).
    exists name, config. split; [by apply list_elem_of_In|].
    unfold config_result in Hr.
    destruct (relevance _ _ _ _) as [score reasons].
    case_decide; [|done]. by destruct Hr as [<-|[]].
  - intros request Hin title url. right. by exists request.
Qed.

(** X18.  Every result of [search] whose identifier begins with ["api-"]
    names a stored configuration, and [fetch] of that identifier answers
    with the configuration's document, whose statistics are the ledger's
    records of that name. *)
Theorem search_api_result_fetchable st query (r : SearchResult.t) :
  r ∈ search st query →
  startsWith "api-" (SearchResult.id r) = true →
  ∃ name config,
    SearchResult.id r = "api-" +:+ name
    ∧ getApiConfig st name = Some config
    ∧ fetch st (SearchResult.id r)
      = FetchOk
          (ApiConfigurationDoc (SearchResult.id r) name config
             (authType_of st config)
             (filter (λ h, RequestHistory.apiName h = name)
                (requestHistory st))
             (count_success
                (filter (λ h, RequestHistory.apiName h = name)
                   (requestHistory st)))).
Proof.
  intros Hin%search_subset Hapi.
  destruct (searchResults_origin _ _ _ Hin)
    as [(name & config & Hstored & Hid)|(request & _ & Hid)].
  - destruct (Map_elem_of_is_Some _ _ _ Hstored) as [config' Hget].
    exists name, config'. split; [done|]. split; [done|].
    rewrite Hid. unfold fetch, fetch_api.
    rewrite startsWith_app, replace_first_prefix.
    unfold getApiConfig in *. by rewrite Hget.
  - by rewrite Hid in Hapi.
Qed.

End SearchMore.

Section EndpointRoundTrip.

Implicit Types (s t : string) (c : ascii).

Lemma replace_non_alnum_id s :
  all_chars is_alnum s = true → replace_non_alnum s = s.
Proof.
  induction s as [|c s IH]; [done|]. cbn. fold (replace_non_alnum s).
  intros [Hc Hs]%andb_true_iff. by rewrite Hc, IH.
Qed.

Lemma replace_non_alnum_inv s t :
  all_chars is_alnum t = true → replace_non_alnum s = t → s = t.
Proof.
  revert t. induction s as [|c s IH]; intros [|d t]; try done.
  cbn. fold (replace_non_alnum s).
  intros [Hd Ht]%andb_true_iff [= Hc Hs].
  destruct (is_alnum c) eqn:Halnum.
  - subst d. f_equal. by apply IH.
  - by subst d.
Qed.

Lemma alnum_no_char (c : ascii) s :
  is_alnum c = false → all_chars is_alnum s = true → has_char c s = false.
Proof.
  intros Hc. induction s as [|d s IH]; [done|]. cbn.
  intros [Hd Hs]%andb_true_iff. rewrite IH by done.
  rewrite orb_false_r. apply bool_decide_eq_false_2. congruence.
Qed.

Lemma replace_underscores_id s :
  has_char "_" s = false → replace_underscores s = s.
Proof.
  induction s as [|c s IH]; [done|]. cbn. fold (replace_underscores s).
  intros [Hc Hs]%orb_false_iff. apply bool_decide_eq_false in Hc.
  by rewrite decide_False, IH.
Qed.

Lemma split_without c s : has_char c s = false → split c s = [s].
Proof.
  induction s as [|d s IH]; [done|]. cbn.
  intros [Hd Hs]%orb_false_iff. apply bool_decide_eq_false in Hd.
  by rewrite decide_False, IH.
Qed.

Lemma split_at_first c s t :
  has_char c s = false → split c (s +:+ String c t) = s :: split c t.
Proof.
  induction s as [|d s IH].
  - intros _. change ("" +:+ String c t) with (String c t). cbn.
    by rewrite decide_True.
  - cbn. intros [Hd Hs]%orb_false_iff. apply bool_decide_eq_false in Hd.
    change (String d s +:+ String c t) with (String d (s +:+ String c t)).
    cbn. by rewrite decide_False, IH.
Qed.

(** X19.  For a non-empty API name without a dash and an endpoint made of
    letters and digits only, the identifier [search] gives to the endpoint
    is found by [fetch]: when the configuration is stored and the ledger has a call
    of that endpoint, the answer is the endpoint document made from all
    such calls: the methods seen, their number, the number of successes,
    the summed response time and the last 5 of them. *)
Theorem fetch_endpoint_alnum (st : State) (apiName endpoint : string)
    (config : ApiConfig.t) (request : RequestHistory.t) :
  apiName ≠ "" →
  has_char "-" apiName = false →
  all_chars is_alnum endpoint = true →
  getApiConfig st apiName = Some config →
  request ∈ requestHistory st →
  RequestHistory.apiName request = apiName →
  RequestHistory.endpoint request = endpoint →
  let calls :=
    filter (λ r, RequestHistory.apiName r = apiName
                 ∧ RequestHistory.endpoint r = endpoint)
           (requestHistory st) in
  fetch st (endpoint_id apiName endpoint)
    = FetchOk
        (EndpointInfoDoc (endpoint_id apiName endpoint) endpoint apiName
           config (authType_of st config)
           (unique_from [] (RequestHistory.method <$> calls))
           (length calls) (count_success calls) (sum_responseTime calls)
           (slice_last 5 calls))
  ∧ request ∈ calls.
Proof.
  intros Hname Hdash Halnum Hget Hin Hrname Hrend calls.
  assert (request ∈ calls) as Hcalls.
  { apply list_elem_of_filter. by split. }
  split; [|done].
  unfold endpoint_id, fetch.
  rewrite startsWith_app, replace_first_prefix, fetch_api_endpoint_prefix.
  rewrite (replace_non_alnum_id _ Halnum).
  change (apiName +:+ "-" +:+ endpoint)
    with (apiName +:+ String "-" endpoint).
  rewrite (split_at_first _ _ _ Hdash).
  rewrite split_without by (by apply alnum_no_char).
  cbn [hd tail join]. rewrite decide_False by done.
  rewrite replace_underscores_id by (by apply alnum_no_char).
  rewrite Hget.
  rewrite (list_filter_iff _
    (λ r, RequestHistory.apiName r = apiName
          ∧ RequestHistory.endpoint r = endpoint)).
  2: { intros r. split; intros [? Hr]; (split; [done|]).
       - by apply replace_non_alnum_inv.
       - rewrite Hr. by apply replace_non_alnum_id. }
  fold calls. destruct calls as [|firstRequest rest] eqn:Hc.
  { by apply elem_of_nil in Hcalls. }
  assert (firstRequest ∈ calls) as Hfirst by (rewrite Hc; left).
  apply list_elem_of_filter in Hfirst as [[_ ->] _]. done.
Qed.

End EndpointRoundTrip.

Section SearchRepeats.

Implicit Types (st : State) (request : RequestHistory.t).

Lemma endpoint_step_seen st (queryLower key : string)
    (history : list RequestHistory.t) (acc : gset string * list SearchResult.t) :
  key ∈ acc.1 → key ∈ (foldl (endpoint_step st queryLower) acc history).1.
Proof.
  revert acc. induction history as [|request history IH]; intros acc Hk;
    [done|].
  cbn. apply IH. unfold endpoint_step. destruct acc as [seen results].
  destruct (request_matches _ _); [|done].
  case_decide; [done|]. cbn in *. set_solver.
Qed.

Lemma endpoint_step_marks st (queryLower : string) request
    (history : list RequestHistory.t) (acc : gset string * list SearchResult.t) :
  request ∈ history →
  request_matches queryLower request = true →
  RequestHistory.apiName request +:+ "-" +:+ RequestHistory.endpoint request
    ∈ (foldl (endpoint_step st queryLower) acc history).1.
Proof.
  revert acc. induction history as [|r history IH]; intros acc Hin Hm.
  { by apply elem_of_nil in Hin. }
  apply elem_of_cons in Hin as [<-|Hin]; [|by apply IH].
  cbn. apply endpoint_step_seen. unfold endpoint_step.
  destruct acc as [seen results]. rewrite Hm.
  case_decide; [done|]. cbn. set_solver.
Qed.

(** A record that repeats an earlier one (same API, endpoint and method),
    put after the others, adds nothing to what the two loops find. *)
Lemma searchResults_repeat st query request earlier :
  earlier ∈ requestHistory st →
  RequestHistory.apiName request = RequestHistory.apiName earlier →
  RequestHistory.endpoint request = RequestHistory.endpoint earlier →
  RequestHistory.method request = RequestHistory.method earlier →
  searchResults
    (mkState (apiConfigs st) (requestHistory st ++ [request]) (authObjects st))
    query
  = searchResults st query.
Proof.
  intros Hin Hname Hend Hmeth.
  set (st' := mkState _ _ _).
  assert (∀ q, request_matches q request = request_matches q earlier)
    as Hsame.
  { intros q. unfold request_matches. by rewrite Hend, Hmeth. }
  unfold searchResults.
  assert (∀ entry,
    config_result st' (toLowerCase query) entry
      = config_result st (toLowerCase query) entry) as Hconfig.
  { intros [name config]. unfold config_result, relevance. cbn.
    rewrite filter_app, existsb_app.
    assert (existsb (request_matches (toLowerCase query))
              (filter (λ r, RequestHistory.apiName r = name) [request])
            = true →
            existsb (request_matches (toLowerCase query))
              (filter (λ r, RequestHistory.apiName r = name)
                 (requestHistory st)) = true) as Himp.
    { rewrite filter_cons, filter_nil. case_decide as Hn; [|done]. cbn.
      rewrite orb_false_r, Hsame. intros Hm. apply existsb_exists.
      exists earlier. split; [|done].
      apply list_elem_of_In, list_elem_of_filter. split; [congruence|done]. }
    destruct (existsb _ (filter _ [request])); [|by rewrite orb_false_r].
    by rewrite Himp. }
  rewrite (flat_map_ext _ _ Hconfig).
  cbn [requestHistory st']. rewrite foldl_app. cbn [foldl].
  change (endpoint_step st' (toLowerCase query))
    with (endpoint_step st (toLowerCase query)).
  set (acc := foldl _ _ (requestHistory st)).
  assert (request_matches (toLowerCase query) earlier = true →
    RequestHistory.apiName earlier +:+ "-" +:+ RequestHistory.endpoint earlier
      ∈ acc.1) as Hmark.
  { intros Hm. by apply endpoint_step_marks. }
  clearbody acc.
  assert (endpoint_step st (toLowerCase query) acc request = acc) as ->;
    [|done].
  unfold endpoint_step. destruct acc as [seen results].
  destruct (request_matches (toLowerCase query) request) eqn:Hm; [|done].
  rewrite decide_True; [done|].
  rewrite Hname, Hend. rewrite Hsame in Hm. by apply Hmark.
Qed.

(** [search] reads the name, the description, the base URL and the [auth]
    of a configuration: a new [lastUsed] changes nothing for it. *)
Lemma Map_set_lastUsed_baseUrl (name key lastUsed : string)
    (config : ApiConfig.t) (configs : list (string * ApiConfig.t)) :
  Map.get name configs = Some config →
  ApiConfig.baseUrl
    <$> Map.get key
          (Map.set name (ApiConfig.with_lastUsed lastUsed config) configs)
  = ApiConfig.baseUrl <$> Map.get key configs.
Proof.
  induction configs as [|[k c] configs IH]; [done|]. cbn.
  destruct (decide (k = name)) as [->|Hk]; cbn.
  - intros [= ->]. by destruct (decide (name = key)).
  - intros Hget. destruct (decide (k = key)); [done|]. by apply IH.
Qed.

Lemma flat_map_set_lastUsed {B} (f : string * ApiConfig.t → list B)
    (name lastUsed : string) (config : ApiConfig.t)
    (configs : list (string * ApiConfig.t)) :
  Map.get name configs = Some config →
  f (name, ApiConfig.with_lastUsed lastUsed config) = f (name, config) →
  flat_map f (Map.set name (ApiConfig.with_lastUsed lastUsed config) configs)
    = flat_map f configs.
Proof.
  intros Hget Hf. revert Hget.
  induction configs as [|[k c] configs IH]; [done|]. cbn.
  destruct (decide (k = name)) as [->|Hk]; cbn.
  - intros [= ->]. by rewrite Hf.
  - intros Hget. by rewrite IH.
Qed.

Lemma searchResults_lastUsed st (name lastUsed query : string)
    (config : ApiConfig.t) (history : list RequestHistory.t) :
  getApiConfig st name = Some config →
  searchResults
    (mkState
       (Map.set name (ApiConfig.with_lastUsed lastUsed config) (apiConfigs st))
       history (authObjects st)) query
  = searchResults (mkState (apiConfigs st) history (authObjects st)) query.
Proof.
  intros Hget. unfold searchResults. cbn [apiConfigs requestHistory].
  set (st' := mkState (Map.set _ _ _) _ _).
  set (st0 := mkState (apiConfigs st) _ _).
  assert (flat_map (config_result st' (toLowerCase query))
            (Map.set name (ApiConfig.with_lastUsed lastUsed config)
               (apiConfigs st))
          = flat_map (config_result st0 (toLowerCase query)) (apiConfigs st))
    as ->.
  { rewrite (flat_map_set_lastUsed _ _ _ _ _ Hget); [|done].
    apply flat_map_ext. by intros [n c]. }
  generalize (∅ : gset string,
              flat_map (config_result st0 (toLowerCase query))
                (apiConfigs st)).
  induction history as [|r history IH]; intros acc; [done|].
  cbn [foldl].
  assert (endpoint_step st' (toLowerCase query) acc r
          = endpoint_step st0 (toLowerCase query) acc r) as ->; [|apply IH].
  unfold endpoint_step. destruct acc as [seen results].
  destruct (request_matches _ _); [|done].
  case_decide; [done|].
  unfold getApiConfig, st', st0. cbn [apiConfigs].
  by rewrite (Map_set_lastUsed_baseUrl _ _ _ _ _ Hget).
Qed.

(** X20.  While the ledger has fewer than 100 records, a call that repeats
    a recorded one (same API, endpoint and method) changes nothing in what
    [search] finds, for every query: neither its record put into the ledger
    by [addRequestToHistory], nor the whole of [make_request], whatever the
    outcome of the call. *)
Theorem search_ignores_repeats st query earlier :
  (length (requestHistory st) < 100)%nat →
  earlier ∈ requestHistory st →
  (∀ request,
     RequestHistory.apiName request = RequestHistory.apiName earlier →
     RequestHistory.endpoint request = RequestHistory.endpoint earlier →
     RequestHistory.method request = RequestHistory.method earlier →
     searchResults
       (mkState (apiConfigs st)
          (addRequestToHistory request (requestHistory st)) (authObjects st))
       query
     = searchResults st query
     ∧ search
         (mkState (apiConfigs st)
            (addRequestToHistory request (requestHistory st))
            (authObjects st)) query
       = search st query)
  ∧ (∀ (JSON_valid : string → bool) args clock outcome,
       RequestArgs.apiName args = RequestHistory.apiName earlier →
       RequestArgs.endpoint args = RequestHistory.endpoint earlier →
       HttpMethod_name (RequestArgs.method args)
         = RequestHistory.method earlier →
       searchResults (make_request JSON_valid st args clock outcome).2 query
         = searchResults st query
       ∧ search (make_request JSON_valid st args clock outcome).2 query
         = search st query).
Proof.
  intros Hlen Hin.
  assert (∀ request,
    RequestHistory.apiName request = RequestHistory.apiName earlier →
    RequestHistory.endpoint request = RequestHistory.endpoint earlier →
    RequestHistory.method request = RequestHistory.method earlier →
    searchResults
      (mkState (apiConfigs st)
         (addRequestToHistory request (requestHistory st)) (authObjects st))
      query
    = searchResults st query) as Hrecord.
  { intros request Hname Hend Hmeth.
    rewrite addRequestToHistory_below by done.
    by apply searchResults_repeat with earlier. }
  split.
  { intros request Hname Hend Hmeth.
    assert (Hfound := Hrecord request Hname Hend Hmeth).
    split; [done|]. unfold search. by rewrite Hfound. }
  intros JSON_valid args clock outcome Hname Hend Hmeth.
  assert (searchResults (make_request JSON_valid st args clock outcome).2
            query = searchResults st query) as Hfound;
    [|split; [done|unfold search; by rewrite Hfound]].
  unfold make_request.
  destruct (getApiConfig st (RequestArgs.apiName args)) as [config|] eqn:Hget;
    [|done].
  destruct outcome as [|message|response]; [done..|].
  destruct (parseResponse JSON_valid response) as [body|]; [|done].
  cbn [snd]. rewrite (searchResults_lastUsed _ _ _ _ _ _ Hget).
  by apply Hrecord.
Qed.

(** At 100 records the oldest one leaves the ledger, and with it what
    [search] found through it. *)
Lemma search_full_ledger_repeat :
  length (requestHistory full_state) = 100%nat
  ∧ jp_record ∈ requestHistory full_state
  ∧ SearchResult.id <$> search full_state "/"
    = ["api-jp"; "endpoint-jp-_posts_1"; "endpoint-jp-_users"]
  ∧ SearchResult.id
      <$> search
            (make_request sampleJson full_state get_post jp_clock
               (Resolved ok_response)).2 "/"
    = ["api-jp"; "endpoint-jp-_posts_1"].
Proof.
  split; [reflexivity|].
  split; [apply list_elem_of_In; right; left; reflexivity|].
  split; vm_compute; reflexivity.
Qed.

End SearchRepeats.

(** ** The activity log *)

Section ActivityLog.

Implicit Types (activityLog : list string).

Lemma length_append (s t : string) :
  String.length (s +:+ t) = (String.length s + String.length t)%nat.
Proof.
  induction s as [|c s IH]; [done|].
  change (String c s +:+ t) with (String c (s +:+ t)). cbn. by rewrite IH.
Qed.

Lemma join_snoc_length (sep : string) (l : list string) (x : string) :
  (String.length x ≤ String.length (join sep (l ++ [x])))%nat.
Proof.
  induction l as [|w l IH]; [done|].
  change ((w :: l) ++ [x]) with (w :: (l ++ [x])).
  destruct (l ++ [x]) as [|w' l'] eqn:Hl; [by destruct l|].
  change (join sep (w :: w' :: l')) with (w +:+ sep +:+ join sep (w' :: l')).
  rewrite !length_append. lia.
Qed.

Lemma slice_last_snoc {A} (n : nat) (l : list A) (x : A) :
  ∃ l', slice_last (S n) (l ++ [x]) = l' ++ [x].
Proof.
  unfold slice_last. rewrite length_app. cbn.
  exists (drop (length l + 1 - S n) l).
  rewrite drop_app_le by lia. done.
Qed.

Lemma addToLog_last (timestamp message : string) activityLog :
  ∃ l, addToLog timestamp message activityLog
       = l ++ ["[" +:+ timestamp +:+ "] " +:+ message].
Proof.
  unfold addToLog. case_decide; [|by eexists].
  destruct activityLog as [|e activityLog]; [cbn in *; lia|]. by eexists.
Qed.

(** X21.  The activity log never holds more than 100 lines once it holds
    at most 100, and the line just logged is its last.  The [logs://recent]
    resource logs its own access first, so its answer is never the
    fallback ["No recent activity"]: it is the last 20 lines, joined. *)
Theorem logs_recent_never_empty (timestamp : string) activityLog :
  (logs_recent timestamp activityLog).1
    = join line_feed
        (slice_last 20
           (addToLog timestamp "Resource accessed: logs://recent" activityLog))
  ∧ (logs_recent timestamp activityLog).1 ≠ "No recent activity"
  ∧ last (logs_recent timestamp activityLog).2
    = Some ("[" +:+ timestamp +:+ "] Resource accessed: logs://recent")
  ∧ ((length activityLog ≤ 100)%nat →
     (length (logs_recent timestamp activityLog).2 ≤ 100)%nat).
Proof.
  unfold logs_recent. cbn [fst snd].
  destruct (addToLog_last timestamp "Resource accessed: logs://recent"
    activityLog) as [l Hl].
  destruct (slice_last_snoc 19 l
    ("[" +:+ timestamp +:+ "] " +:+ "Resource accessed: logs://recent"))
    as [l' Hl'].
  pose proof (join_snoc_length line_feed l'
    ("[" +:+ timestamp +:+ "] " +:+ "Resource accessed: logs://recent"))
    as Hlen.
  rewrite Hl, Hl'.
  change ("[" +:+ timestamp +:+ "] " +:+ "Resource accessed: logs://recent")
    with (String "[" (timestamp +:+ "] Resource accessed: logs://recent"))
    in *.
  cbn [String.length] in Hlen. rewrite length_append in Hlen. cbn in Hlen.
  assert (∀ s, (19 ≤ String.length s)%nat →
    or_else (Some s) "No recent activity" = s ∧ s ≠ "No recent activity")
    as Hlong.
  { intros s Hs. unfold or_else.
    rewrite bool_decide_eq_false_2 by (intros ->; cbn in Hs; lia).
    split; [done|]. intros ->. cbn in Hs. lia. }
  destruct (Hlong (join line_feed
    (l' ++ [String "[" (timestamp +:+ "] Resource accessed: logs://recent")])))
    as [-> Hne]; [lia|].
  split; [done|]. split; [done|]. split; [apply last_snoc|].
  rewrite <- Hl. intros Hle. unfold addToLog. case_decide.
  - rewrite length_tl, length_app. cbn. lia.
  - lia.
Qed.

End ActivityLog.

(** ** The list resource *)

Section ListResource.

Implicit Types (st : State) (config : ApiConfig.t) (r : ref).

Lemma sanitizeConfig_redacts st config r :
  ApiConfig.auth config = Some r →
  redacted_at (sanitizeConfig st config).2 r.
Proof.
  intros Hauth t creds' Hl.
  pose proof (sanitizeConfig_own st config) as Hown.
  unfold auth_of in Hown. rewrite Hauth, Hl in Hown.
  destruct (authObjects st !! r) as [[t0 [creds|]]|]; try done.
  injection Hown as -> ->. apply redacted_shows_no_secret.
Qed.

Lemma sanitizeConfig_keeps_redacted st config r :
  redacted_at st r → redacted_at (sanitizeConfig st config).2 r.
Proof.
  intros Hred. destruct (decide (ApiConfig.auth config = Some r)) as [Ha|Ha].
  - by apply sanitizeConfig_redacts.
  - intros t creds. rewrite sanitizeConfig_other by done. apply Hred.
Qed.

Lemma sanitize_all_keeps_redacted st (configs : list ApiConfig.t) r :
  redacted_at st r → redacted_at (sanitize_all st configs) r.
Proof.
  revert st. induction configs as [|c configs IH]; intros st Hred; [done|].
  change (sanitize_all st (c :: configs))
    with (sanitize_all (sanitizeConfig st c).2 configs).
  by apply IH, sanitizeConfig_keeps_redacted.
Qed.

Lemma sanitize_all_redacts st (configs : list ApiConfig.t) config r :
  config ∈ configs → ApiConfig.auth config = Some r →
  redacted_at (sanitize_all st configs) r.
Proof.
  revert st. induction configs as [|c configs IH]; intros st Hin Hauth.
  { by apply elem_of_nil in Hin. }
  change (sanitize_all st (c :: configs))
    with (sanitize_all (sanitizeConfig st c).2 configs).
  apply elem_of_cons in Hin as [->|Hin].
  - by apply sanitize_all_keeps_redacted, sanitizeConfig_redacts.
  - by apply IH.
Qed.

Lemma sanitize_all_state st (configs : list ApiConfig.t) :
  apiConfigs (sanitize_all st configs) = apiConfigs st
  ∧ requestHistory (sanitize_all st configs) = requestHistory st.
Proof.
  revert st. induction configs as [|c configs IH]; intros st; [done|].
  change (sanitize_all st (c :: configs))
    with (sanitize_all (sanitizeConfig st c).2 configs).
  destruct (IH (sanitizeConfig st c).2) as [-> ->].
  by destruct (sanitizeConfig_state st c) as (-> & -> & _).
Qed.

(** X22.  The [apis://list] resource counts the stored configurations and
    the ledger's records, leaves both as they are, and prints one copy for
    each configuration; in no copy do the credentials show a token, an API
    key or a password other than as ["[REDACTED]"]. *)
Theorem apis_list_shows_no_secret st (now : string) :
  ApisList.totalApis (apis_list st now).1 = length (apiConfigs st)
  ∧ ApisList.totalRequests (apis_list st now).1 = length (requestHistory st)
  ∧ shown <$> ApisList.apis (apis_list st now).1 = (apiConfigs st).*2
  ∧ apiConfigs (apis_list st now).2 = apiConfigs st
  ∧ requestHistory (apis_list st now).2 = requestHistory st
  ∧ (∀ rendered t creds,
       rendered ∈ ApisList.apis (apis_list st now).1 →
       shown_auth rendered = Some (Auth.mk t (Some creds)) →
       shows_no_secret creds).
Proof.
  unfold apis_list. cbn.
  destruct (sanitize_all_state st (apiConfigs st).*2) as [Hc Hh].
  split; [by rewrite length_fmap|]. split; [done|].
  split. { rewrite <- list_fmap_compose. apply list_fmap_id. }
  split; [done|]. split; [done|].
  intros rendered t creds
    (config & -> & Hin)%list_elem_of_fmap Hshown.
  unfold stringify, auth_of in Hshown. cbn in Hshown.
  destruct (ApiConfig.auth config) as [r|] eqn:Hauth; [|done].
  by eapply (sanitize_all_redacts st _ config r).
Qed.

End ListResource.

(** ** How the operations compose *)

Section Composition.

Variables URL_parses JSON_valid : string → bool.

Implicit Types (st : State) (name : string).

Lemma sanitizeConfig_twice st (config : ApiConfig.t) :
  (sanitizeConfig (sanitizeConfig st config).2 config).2
    = (sanitizeConfig st config).2.
Proof.
  unfold sanitizeConfig at 1.
  destruct (ApiConfig.auth config) as [r|] eqn:Hauth; [|done].
  pose proof (sanitizeConfig_own st config) as Hown.
  unfold auth_of in Hown. rewrite Hauth in Hown. rewrite Hown.
  destruct (authObjects st !! r) as [[t [creds|]]|] eqn:Hl; try done.
  change (Credentials.mk _ _ _ _ _) with (redacted (redacted creds)).
  rewrite redacted_redacted.
  destruct (sanitizeConfig st config).2 as [cs hs os] eqn:Hst. cbn in *.
  f_equal. by apply list_insert_id.
Qed.

(** X23.  Reading a configuration right after saving it shows what the
    save showed, and changes nothing more. *)
Theorem save_then_get st (args : SaveArgs.t) (now : string) rendered st' :
  save_api URL_parses st args now = (SaveOk rendered, st') →
  get_api st' (SaveArgs.name args) = (GetOk rendered, st').
Proof.
  rewrite save_api_unfold.
  destruct (Map.has _ _); [done|]. destruct (negb _); [done|].
  destruct (check_auth _); [done|]. cbn zeta. intros [= <- <-].
  set (st1 := mkState _ _ _).
  assert (getApiConfig (sanitizeConfig st1 (saved_config st args now)).2
            (SaveArgs.name args) = Some (saved_config st args now)) as Hget.
  { unfold getApiConfig.
    destruct (sanitizeConfig_state st1 (saved_config st args now))
      as (-> & _).
    apply Map_get_set_eq. }
  by rewrite get_api_unfold, Hget, sanitizeConfig_twice.
Qed.

(** X24.  Once a name is deleted from a store without repeated names, a
    call to it fails with [ApiNotFound] and records nothing, while the
    records of its earlier calls stay in the ledger. *)
Theorem delete_then_request st (args : RequestArgs.t) (clock : Clock)
    (outcome : FetchOutcome) :
  NoDup (apiConfigs st).*1 →
  make_request JSON_valid (delete_api st (RequestArgs.apiName args)).2
    args clock outcome
  = (RequestFailed (ApiNotFound (RequestArgs.apiName args)),
     (delete_api st (RequestArgs.apiName args)).2)
  ∧ requestHistory (delete_api st (RequestArgs.apiName args)).2
    = requestHistory st.
Proof.
  intros Hnd.
  assert (getApiConfig (delete_api st (RequestArgs.apiName args)).2
            (RequestArgs.apiName args) = None) as Hgone.
  { unfold delete_api.
    destruct (getApiConfig st (RequestArgs.apiName args)) eqn:Hget; [|done].
    by apply Map_get_delete_eq. }
  split.
  - unfold make_request. by rewrite Hgone.
  - unfold delete_api. by destruct (getApiConfig st _).
Qed.

End Composition.

Section FetchFailures.

Implicit Types (st : State) (id : string).

(** X25.  The identifiers [fetch] does not accept.  One that begins with
    neither ["api-"] nor ["endpoint-"] is not found.  After ["endpoint-"],
    the text up to the first dash is taken as the API name: when it is
    empty the identifier is invalid, and when no configuration has that
    name the API is unknown, whatever follows the dash. *)
Theorem fetch_rejects st :
  (∀ id,
     startsWith "api-" id = false → startsWith "endpoint-" id = false →
     fetch st id = FetchFailed (DocumentNotFound id))
  ∧ fetch st "endpoint-" = FetchFailed (InvalidEndpointId "endpoint-")
  ∧ (∀ rest,
       fetch st ("endpoint--" +:+ rest)
         = FetchFailed (InvalidEndpointId ("endpoint--" +:+ rest)))
  ∧ (∀ apiName rest,
       apiName ≠ "" → has_char "-" apiName = false →
       getApiConfig st apiName = None →
       fetch st ("endpoint-" +:+ apiName +:+ "-" +:+ rest)
         = FetchFailed (UnknownApi apiName)).
Proof.
  split; [|split; [|split]].
  - intros id Ha He. unfold fetch, fetch_api. by rewrite Ha, He.
  - done.
  - intros rest. unfold fetch.
    change ("endpoint--" +:+ rest) with ("endpoint-" +:+ String "-" rest).
    rewrite startsWith_app, replace_first_prefix. cbn [split].
    by rewrite decide_True.
  - intros apiName rest Hne Hdash Hget. unfold fetch.
    rewrite startsWith_app, replace_first_prefix.
    change (apiName +:+ "-" +:+ rest) with (apiName +:+ String "-" rest).
    rewrite (split_at_first _ _ _ Hdash). cbn [hd].
    by rewrite decide_False, Hget.
Qed.

End FetchFailures.

(** * The further properties at concrete inputs *)

Section ConcreteMore.

Lemma reachable_well_formed_witness : well_formed jp_called.
Proof.
  apply (reachable_well_formed SampleUrl.parses sampleJson).
  apply (reachable_step _ _ jp_saved).
  - apply (reachable_step _ _ initial); [apply reachable_initial|].
    exact (step_save _ _ initial jp_args "2024-05-01T10:00:00.000Z").
  - exact (step_request _ _ jp_saved get_post jp_clock (Resolved ok_response)).
Defined.

Lemma save_api_twice_witness :
  save_api SampleUrl.parses jp_saved jp_args "2024-05-02T00:00:00.000Z"
    = (SaveFailed (AlreadyExists "jp"), jp_saved).
Proof.
  eapply (save_api_twice SampleUrl.parses initial jp_args
            "2024-05-01T10:00:00.000Z" _ jp_saved jp_args);
    [vm_compute; reflexivity|reflexivity].
Defined.

Lemma save_api_stores_witness :
  ∃ config,
    getApiConfig jp_saved "jp" = Some config
    ∧ ApiConfig.timeout config = Some 30000
    ∧ ApiConfig.lastUsed config = None.
Proof.
  destruct (save_api_stores SampleUrl.parses initial jp_args
    "2024-05-01T10:00:00.000Z" _ jp_saved ltac:(vm_compute; reflexivity))
    as (config & Hget & _ & _ & _ & _ & Htimeout & _ & Hused & _).
  exists config. split; [exact Hget|]. split; [exact Htimeout|exact Hused].
Defined.

Lemma save_api_frame_witness :
  getApiConfig both_saved "github" = Some github_config
  ∧ auth_of both_saved github_config = auth_of github_saved github_config.
Proof.
  destruct (save_api_frame SampleUrl.parses github_saved jp_args
    "2024-05-01T11:00:00.000Z" _ both_saved ltac:(vm_compute; reflexivity))
    as [Hkept _].
  destruct (Hkept "github" github_config ltac:(vm_compute; reflexivity))
    as [Hget Hauth].
  split; [exact Hget|]. apply Hauth.
  apply (well_formed_save SampleUrl.parses), well_formed_initial.
Defined.

Lemma save_api_rejections_witness :
  save_api SampleUrl.parses github_saved github_args "t"
    = (SaveFailed (AlreadyExists "github"), github_saved)
  ∧ save_api SampleUrl.parses github_saved ftp_args "t"
    = (SaveFailed InvalidBaseUrl, github_saved).
Proof.
  split.
  - apply (proj1 (save_api_rejections SampleUrl.parses github_saved
      github_args "t")). vm_compute. eauto.
  - apply (proj1 (proj2 (save_api_rejections SampleUrl.parses github_saved
      ftp_args "t"))); reflexivity.
Defined.

Lemma get_api_shows_no_secret_witness :
  ∃ rendered st' creds',
    get_api keyed_store "svc" = (GetOk rendered, st')
    ∧ shown_auth rendered = Some (Auth.mk bearer (Some creds'))
    ∧ shows_no_secret creds'.
Proof.
  destruct (proj2 (get_api_shows_no_secret keyed_store "svc")
    (config_at 0%nat) eq_refl) as (rendered & st' & Hget & _ & Hcreds & _).
  destruct (Hcreds bearer _ eq_refl) as (creds' & Hshown & Hsecret & _).
  exists rendered, st', creds'. split; [exact Hget|].
  split; [exact Hshown|exact Hsecret].
Defined.

Lemma delete_api_removes_witness :
  getApiConfig (delete_api jp_called "jp").2 "jp" = None
  ∧ requestHistory (delete_api jp_called "jp").2 = [jp_record].
Proof.
  destruct (proj2 (delete_api_removes jp_called "jp")
    ltac:(vm_compute; eauto)) as (_ & Hgone & _ & Hledger & _).
  split; [|exact Hledger].
  apply Hgone. vm_compute. apply NoDup_singleton.
Defined.

Lemma save_then_delete_witness :
  apiConfigs (delete_api jp_saved "jp").2 = [].
Proof.
  apply (save_then_delete SampleUrl.parses initial jp_args
    "2024-05-01T10:00:00.000Z" _ jp_saved ltac:(vm_compute; reflexivity)).
Defined.

Lemma make_request_frame_witness :
  getApiConfig jp_called "github" = getApiConfig jp_saved "github"
  ∧ authObjects jp_called = authObjects jp_saved.
Proof.
  destruct (make_request_frame sampleJson jp_saved get_post jp_clock
    (Resolved ok_response)) as (Hheap & _ & Hother & _).
  split; [|exact Hheap]. apply Hother. discriminate.
Defined.

Lemma make_request_body_outcome_witness :
  make_request sampleJson jp_saved get_post jp_clock
    (Resolved empty_json_response)
  = (RequestFailed BodyRejected, jp_saved).
Proof.
  exact (make_request_body_outcome sampleJson jp_saved get_post jp_clock
    empty_json_response _ eq_refl).
Defined.

Lemma buildUrl_one_slash_witness :
  buildUrl "https://a.io/" "/users" None = "https://a.io/users"
  ∧ buildUrl "https://a.io" "users" None = "https://a.io/users".
Proof.
  destruct (buildUrl_one_slash "https://a.io" "users" None eq_refl eq_refl)
    as (Hboth & _ & _ & Hplain).
  split; [|exact Hplain]. etrans; [exact Hboth|exact Hplain].
Defined.

Lemma buildUrl_skips_null_witness :
  buildUrl "https://a.io" "/users" (Some [("page", js_null)])
    = "https://a.io/users?".
Proof.
  apply (proj1 (proj2 (buildUrl_skips_null "https://a.io" "/users"))
    [("page", js_null)]); [discriminate|reflexivity].
Defined.

Lemma buildUrl_query_is_encoded_witness :
  ∃ query,
    buildUrl "https://a.io" "/users" (Some [("q", js_value "a b&c")])
      = "https://a.io/users" +:+ "?" +:+ query
    ∧ all_chars query_char query = true.
Proof.
  destruct (buildUrl_query_is_encoded "https://a.io" "/users"
    [("q", js_value "a b&c")] ltac:(discriminate))
    as (query & Hurl & _ & Hsafe).
  exists query. split; [exact Hurl|exact Hsafe].
Defined.

Lemma list_apis_order_witness :
  length (list_apis sample_getTime listing_state) = 3%nat
  ∧ sample_getTime "2024-04-01T10:00:00.000Z"
    ≤ sample_getTime "2024-05-03T10:00:00.000Z".
Proof.
  destruct (list_apis_order sample_getTime listing_state)
    as (_ & Hlen & Horder).
  split; [exact Hlen|].
  destruct (Horder 1%nat 2%nat (summary listing_state fresh_config)
    (summary listing_state older_config) ltac:(lia) eq_refl eq_refl)
    as (_ & _ & Hcreated).
  apply Hcreated; reflexivity.
Defined.

Lemma search_capped_sorted_witness :
  search github_saved "git" ≡ₚ searchResults github_saved "git".
Proof.
  apply (proj2 (proj2 (proj2 (search_capped_sorted github_saved "git")))).
  vm_compute. lia.
Defined.

Lemma search_finds_name_witness :
  ∃ r, r ∈ search github_saved "GIT" ∧ SearchResult.id r = "api-github".
Proof.
  destruct (search_finds_name github_saved "GIT" "github" github_config)
    as (r & _ & Hid & _ & Hin).
  - apply list_elem_of_In. vm_compute. left. reflexivity.
  - reflexivity.
  - exists r. split; [|exact Hid]. apply Hin. vm_compute. lia.
Defined.

Lemma search_api_result_fetchable_witness :
  ∃ document, fetch github_saved "api-github" = FetchOk document.
Proof.
  destruct (search_api_result_fetchable github_saved "git" github_result)
    as (name & config & _ & _ & Hfetch).
  - apply list_elem_of_In. vm_compute. left. reflexivity.
  - reflexivity.
  - eexists. exact Hfetch.
Defined.

Lemma fetch_endpoint_alnum_witness :
  ∃ document, fetch posts_state "endpoint-jp-posts" = FetchOk document.
Proof.
  destruct (fetch_endpoint_alnum posts_state "jp" "posts"
    (saved_config initial jp_args "2024-05-01T10:00:00.000Z") posts_record)
    as [Hfetch _];
    [discriminate|reflexivity|reflexivity|reflexivity| |reflexivity
    |reflexivity|].
  - apply list_elem_of_In. left. reflexivity.
  - eexists. exact Hfetch.
Defined.

Lemma search_ignores_repeats_witness :
  search
    (mkState (apiConfigs jp_called)
       (addRequestToHistory jp_record (requestHistory jp_called))
       (authObjects jp_called)) "posts"
  = search jp_called "posts"
  ∧ search
      (make_request sampleJson jp_called get_post jp_clock
         (Resolved missing_response)).2 "posts"
    = search jp_called "posts".
Proof.
  destruct (search_ignores_repeats jp_called "posts" jp_record)
    as [Hrecord Hcall].
  - vm_compute. lia.
  - apply list_elem_of_In. vm_compute. left. reflexivity.
  - split.
    + apply (Hrecord jp_record); reflexivity.
    + apply (Hcall sampleJson get_post jp_clock (Resolved missing_response));
        reflexivity.
Defined.

Lemma logs_recent_never_empty_witness :
  (logs_recent "2024-05-01T10:00:00.000Z" []).1
    = "[2024-05-01T10:00:00.000Z] Resource accessed: logs://recent"
  ∧ (length (logs_recent "2024-05-01T10:00:00.000Z" []).2 ≤ 100)%nat.
Proof.
  destruct (logs_recent_never_empty "2024-05-01T10:00:00.000Z" [])
    as (Htext & _ & _ & Hlen).
  split; [exact Htext|]. apply Hlen. cbn. lia.
Defined.

Lemma save_then_get_witness :
  ∃ rendered,
    get_api jp_saved "jp" = (GetOk rendered, jp_saved)
    ∧ (save_api SampleUrl.parses initial jp_args
         "2024-05-01T10:00:00.000Z").1 = SaveOk rendered.
Proof.
  eexists. split.
  - apply (save_then_get SampleUrl.parses initial jp_args
      "2024-05-01T10:00:00.000Z"). vm_compute. reflexivity.
  - vm_compute. reflexivity.
Defined.

Lemma delete_then_request_witness :
  make_request sampleJson (delete_api jp_called "jp").2 get_post jp_clock
    (Resolved ok_response)
  = (RequestFailed (ApiNotFound "jp"), (delete_api jp_called "jp").2).
Proof.
  apply (delete_then_request sampleJson jp_called get_post jp_clock
    (Resolved ok_response)).
  vm_compute. apply NoDup_singleton.
Defined.

Lemma apis_list_shows_no_secret_witness :
  ∃ rendered creds,
    ApisList.apis (apis_list keyed_store "t").1 = [rendered]
    ∧ shown_auth rendered = Some (Auth.mk bearer (Some creds))
    ∧ shows_no_secret creds.
Proof.
  eexists _, _. split; [reflexivity|]. split; [reflexivity|].
  apply (proj2 (proj2 (proj2 (proj2 (proj2
    (apis_list_shows_no_secret keyed_store "t")))))
    (stringify (apis_list keyed_store "t").2 (config_at 0%nat)) bearer);
    [left|reflexivity].
Defined.

Lemma fetch_rejects_witness :
  fetch jp_called "posts" = FetchFailed (DocumentNotFound "posts")
  ∧ fetch jp_called "endpoint-github-_user"
    = FetchFailed (UnknownApi "github").
Proof.
  destruct (fetch_rejects jp_called) as (Hplain & _ & _ & Hunknown).
  split.
  - apply Hplain; reflexivity.
  - apply (Hunknown "github" "_user"); [discriminate|reflexivity..].
Defined.

End ConcreteMore.
